(** * The poker room of scrum-poker-worker: state, commands and broadcast

    A shallow embedding of [src/index.ts] (class [PokerRoom]): the room
    record, the session registry, the message, close and connect handlers,
    and [broadcastState] with its retry on failed sends.

    Modelling conventions.
    - A value produced by [JSON.parse] is a [json]; a property read that
      yields [undefined] is [None] of [option json].
    - [this.users], a JS object used as a dictionary, is a [gmap string User]
      of its own properties. The model and the source agree for the ids
      that are not names inherited from [Object.prototype] ([constructor],
      [__proto__], ...); the statements that depend on it say so, through
      [unpolluted] and [inherited].
    - A string is the sequence of its UTF-16 code units, one character
      each; this is exact for ids of characters below 128 ([sevenBit]).
    - A [WebSocket] is the number of the connection that created it, so a
      socket identifies its session the way object identity does in the
      source.
    - Whether [socket.send] throws is decided by the environment: an oracle
      [nat -> nat -> bool] gives, for the n-th pass of [broadcastState]
      inside one event and a socket, [true] when the send throws.
    - Logging is not modelled. *)

From Stdlib Require Import Floats.SpecFloat Sorting.Sorted Strings.Ascii.
From Equations Require Import Equations.
From Equations.Prop Require Import Logic.
From stdpp Require Import gmap strings list fin_maps.

Set Warnings "-register-all".

(** ** Values of the wire format *)

Inductive json : Type :=
| JNull
| JBool (b : bool)
| JNumber (x : spec_float)
| JString (s : string)
| JArray (xs : list json)
| JObject (fields : gmap string json).

(** JS [ToBoolean]; [None] stands for [undefined]. *)
Definition toBoolean (v : option json) : bool :=
  match v with
  | None => false
  | Some JNull => false
  | Some (JBool b) => b
  | Some (JNumber (S754_zero _)) => false
  | Some (JNumber S754_nan) => false
  | Some (JNumber _) => true
  | Some (JString s) => negb (bool_decide (s = ""))
  | Some (JArray _) => true
  | Some (JObject _) => true
  end.

(** [Array.isArray(v)]. *)
Definition isArray (v : option json) : bool :=
  match v with
  | Some (JArray _) => true
  | _ => false
  end.

(** [v.k] for a value [v] that is not [null]: only objects built by
    [JSON.parse] carry the keys the room reads. *)
Definition prop (v : json) (k : string) : option json :=
  match v with
  | JObject fields => fields !! k
  | _ => None
  end.

(** ** Data model *)

Record Session : Type := mkSession {
  socket : nat;
  userId : string
}.

Global Instance Session_eq_dec : EqDecision Session.
Proof. solve_decision. Defined.

Record User : Type := mkUser {
  user_id : string;
  name : json;
  vote : option json;
  avatar : option json;
  colorId : json;
  isSpectator : bool
}.

Record PokerRoom : Type := mkRoom {
  sessions : list Session;
  users : gmap string User;
  userList : list string;
  revealed : bool;
  deckId : option json;
  activeCustomDeck : json
}.

(** The constructor of [PokerRoom]. *)
Definition newRoom : PokerRoom :=
  {| sessions := [];
     users := ∅;
     userList := [];
     revealed := false;
     deckId := Some (JString "fibonacci");
     activeCustomDeck := JNull |}.

Definition set_sessions (ss : list Session) (st : PokerRoom) : PokerRoom :=
  {| sessions := ss; users := users st; userList := userList st;
     revealed := revealed st; deckId := deckId st;
     activeCustomDeck := activeCustomDeck st |}.

Definition set_users (us : gmap string User) (st : PokerRoom) : PokerRoom :=
  {| sessions := sessions st; users := us; userList := userList st;
     revealed := revealed st; deckId := deckId st;
     activeCustomDeck := activeCustomDeck st |}.

Definition set_userList (ul : list string) (st : PokerRoom) : PokerRoom :=
  {| sessions := sessions st; users := users st; userList := ul;
     revealed := revealed st; deckId := deckId st;
     activeCustomDeck := activeCustomDeck st |}.

Definition set_revealed (b : bool) (st : PokerRoom) : PokerRoom :=
  {| sessions := sessions st; users := users st; userList := userList st;
     revealed := b; deckId := deckId st;
     activeCustomDeck := activeCustomDeck st |}.

Definition set_deck (d : option json) (custom : json) (st : PokerRoom) : PokerRoom :=
  {| sessions := sessions st; users := users st; userList := userList st;
     revealed := revealed st; deckId := d;
     activeCustomDeck := custom |}.

Definition set_vote (v : option json) (u : User) : User :=
  {| user_id := user_id u; name := name u; vote := v; avatar := avatar u;
     colorId := colorId u; isSpectator := isSpectator u |}.

Definition set_name (n : json) (u : User) : User :=
  {| user_id := user_id u; name := n; vote := vote u; avatar := avatar u;
     colorId := colorId u; isSpectator := isSpectator u |}.

Definition set_avatar (a : option json) (u : User) : User :=
  {| user_id := user_id u; name := name u; vote := vote u; avatar := a;
     colorId := colorId u; isSpectator := isSpectator u |}.

Definition set_colorId (c : json) (u : User) : User :=
  {| user_id := user_id u; name := name u; vote := vote u; avatar := avatar u;
     colorId := c; isSpectator := isSpectator u |}.

(** ** What goes out on a socket *)

(** The object serialised by [broadcastState] when no message is given. *)
Record StateProjection : Type := mkProjection {
  p_users : list User;
  p_revealed : bool;
  p_deckId : option json;
  p_activeCustomDeck : json
}.

Inductive Payload : Type :=
| StateMessage (p : StateProjection)
| RawMessage (m : string)
| ErrorEnvelope (error : string).

(** One call of [socket.send]; [delivered] is [false] when it threw. *)
Record SendCall : Type := mkSend {
  target : nat;
  body : Payload;
  delivered : bool
}.

(** [userList.map(id => users[id]).filter(Boolean)] and the other fields. *)
Definition project (st : PokerRoom) : StateProjection :=
  {| p_users := omap (λ i, users st !! i) (userList st);
     p_revealed := revealed st;
     p_deckId := deckId st;
     p_activeCustomDeck := activeCustomDeck st |}.

(** [if (!message) { message = JSON.stringify(state) }]: the empty string
    is falsy, like an absent argument. *)
Definition outgoing (message : option string) (st : PokerRoom) : Payload :=
  match message with
  | None => StateMessage (project st)
  | Some m => if bool_decide (m = "") then StateMessage (project st) else RawMessage m
  end.

(** ** Broadcast *)

(** The [forEach] over [this.sessions]: one send per session, in order. *)
Definition sendAll (throws : nat → bool) (m : Payload) (ss : list Session) : list SendCall :=
  (λ s, {| target := socket s; body := m; delivered := negb (throws (socket s)) |}) <$> ss.

(** The sessions pushed on [deadSessions] by that [forEach]. *)
Definition deadSessions (throws : nat → bool) (ss : list Session) : list Session :=
  filter (λ s, throws (socket s) = true) ss.

(** [sessions.some(s => s.userId === uid)]. *)
Definition hasSession (ss : list Session) (uid : string) : bool :=
  existsb (λ s, bool_decide (userId s = uid)) ss.

(** [delete users[uid]; userList = userList.filter(id => id !== uid)],
    on the pair of the map and the join order. *)
Definition dropUser (uid : string) (p : gmap string User * list string)
  : gmap string User * list string :=
  (delete uid p.1, filter (λ i, i ≠ uid) p.2).

(** [deadSessions.forEach(s => { ... })] on the pair of the map and the
    join order: each dead session, in turn, takes its participant along
    when no active session names it. *)
Definition sweepDead (active dead : list Session)
    (p : gmap string User * list string) : gmap string User * list string :=
  foldl (λ acc s, if hasSession active (userId s) then acc
                  else dropUser (userId s) acc) p dead.

(** The body of [if (deadSessions.length > 0)] up to the recursive call:
    the dead sessions leave [this.sessions], then the participants left
    without a session are removed. *)
Definition removeDead (dead : list Session) (st : PokerRoom) : PokerRoom :=
  let active := filter (λ s, s ∉ dead) (sessions st) in
  let p := sweepDead active dead (users st, userList st) in
  {| sessions := active; users := p.1; userList := p.2;
     revealed := revealed st; deckId := deckId st;
     activeCustomDeck := activeCustomDeck st |}.

(** [broadcastState(message?)]. The result is the room after the call and
    the passes made, each with its send calls. The recursive call of the
    source is taken on a room with fewer sessions. *)
Equations? broadcastState (throws : nat → nat → bool) (message : option string)
    (st : PokerRoom) : PokerRoom * list (list SendCall)
    by wf (length (sessions st)) lt :=
  broadcastState throws message st
    with inspect (deadSessions (throws 0) (sessions st)) => {
    | exist _ [] _ :=
        (st, [sendAll (throws 0) (outgoing message st) (sessions st)]);
    | exist _ (d :: ds) Hdead :=
        let r := broadcastState (λ n, throws (S n)) None (removeDead (d :: ds) st) in
        (r.1, sendAll (throws 0) (outgoing message st) (sessions st) :: r.2) }.
Proof.
  simpl. apply (length_filter_lt _ _ d).
  - assert (Hin : d ∈ deadSessions (throws 0) (sessions st))
      by (rewrite Hdead; left).
    unfold deadSessions in Hin. apply list_elem_of_filter in Hin. tauto.
  - intros Hn. apply Hn. left.
Qed.

(** ** Registering and unregistering sessions *)

(** The participant created by [handleSession] for a new id. The default
    name takes the first four characters, which are the first four UTF-16
    code units for an id that is [sevenBit]. *)
Definition defaultUser (uid : string) (spectator : bool) : User :=
  {| user_id := uid;
     name := JString ("User " +:+ String.substring 0 4 uid);
     vote := Some JNull;
     avatar := None;
     colorId := JString "default";
     isSpectator := spectator |}.

(** [handleSession] up to its call of [broadcastState]. The test
    [!this.users[userId]] is the lookup of an own entry; for an id that is
    an inherited name the source finds the inherited member and creates
    nothing (see [inherited]). *)
Definition register (sock : nat) (uid : string) (spectator : bool)
    (st : PokerRoom) : PokerRoom :=
  let st1 := set_sessions (sessions st ++ [mkSession sock uid]) st in
  match users st1 !! uid with
  | Some _ => st1
  | None =>
      set_userList (userList st1 ++ [uid])
        (set_users (<[uid := defaultUser uid spectator]> (users st1)) st1)
  end.

Definition handleSession (throws : nat → nat → bool) (sock : nat) (uid : string)
    (spectator : bool) (st : PokerRoom) : PokerRoom * list (list SendCall) :=
  broadcastState throws None (register sock uid spectator st).

(** The [close] listener up to its call of [broadcastState]. *)
Definition unregister (sock : nat) (uid : string) (st : PokerRoom) : PokerRoom :=
  let active := filter (λ s, socket s ≠ sock) (sessions st) in
  let st1 := set_sessions active st in
  if hasSession active uid then st1
  else set_userList (filter (λ i, i ≠ uid) (userList st1))
         (set_users (delete uid (users st1)) st1).

Definition onClose (throws : nat → nat → bool) (sock : nat) (uid : string)
    (st : PokerRoom) : PokerRoom * list (list SendCall) :=
  broadcastState throws None (unregister sock uid st).

(** ** Commands *)

(** The cases of [switch (data.type)]. *)
Inductive Command : Type :=
| vote_ | reveal_ | reset_ | setProfile_ | setDeck_ | setCustomDeck_.

Definition commandOf (t : option json) : option Command :=
  match t with
  | Some (JString s) =>
      if bool_decide (s = "vote") then Some vote_
      else if bool_decide (s = "reveal") then Some reveal_
      else if bool_decide (s = "reset") then Some reset_
      else if bool_decide (s = "setProfile") then Some setProfile_
      else if bool_decide (s = "setDeck") then Some setDeck_
      else if bool_decide (s = "setCustomDeck") then Some setCustomDeck_
      else None
  | _ => None
  end.

(** [users[id] && !users[id].isSpectator]. *)
Definition canHost (st : PokerRoom) (i : string) : bool :=
  match users st !! i with
  | Some u => negb (isSpectator u)
  | None => false
  end.

(** [userList.find(id => users[id] && !users[id].isSpectator)]. *)
Definition hostId (st : PokerRoom) : option string :=
  List.find (canHost st) (userList st).

(** The commands guarded by [if (isHost)]. *)
Definition privileged (c : Command) : bool :=
  match c with
  | reveal_ | reset_ | setDeck_ | setCustomDeck_ => true
  | vote_ | setProfile_ => false
  end.

(** [for (const u of Object.values(this.users)) u.vote = null]. *)
Definition clearVotes (us : gmap string User) : gmap string User :=
  set_vote (Some JNull) <$> us.

(** The three assignments of [case 'setProfile']. *)
Definition applyProfile (data : gmap string json) (u : User) : User :=
  let u1 := match data !! "name" with
            | Some n => if toBoolean (Some n) then set_name n u else u
            | None => u
            end in
  let u2 := match data !! "avatar" with
            | Some a => set_avatar (if toBoolean (Some a) then Some a else None) u1
            | None => u1
            end in
  match data !! "colorId" with
  | Some c => set_colorId (if toBoolean (Some c) then c else JString "default") u2
  | None => u2
  end.

(** [deck && deck.id && deck.name && Array.isArray(deck.cards)]. *)
Definition validDeck (deck : option json) : bool :=
  match deck with
  | Some d =>
      toBoolean (Some d) && toBoolean (prop d "id") && toBoolean (prop d "name")
      && isArray (prop d "cards")
  | None => false
  end.

(** What the [message] listener is given: a text [JSON.parse] rejects,
    with the message of its [SyntaxError], or the parsed value. *)
Inductive Inbound : Type :=
| Malformed (error : string)
| Parsed (data : json).

(** The message of the [TypeError] raised by [data.type] on [null]. *)
Definition typeErrorOfNull : string :=
  "Cannot read properties of null (reading 'type')".

(** The [message] listener of the socket [sock] opened for [uid]. The
    reads [this.users[userId]], [data.name], ['avatar' in data] and
    [deck.name] are lookups of own properties, which is what the source
    does in a room that is [unpolluted]. *)
Definition onMessage (throws : nat → nat → bool) (sock : nat) (uid : string)
    (msg : Inbound) (st : PokerRoom) : PokerRoom * list (list SendCall) :=
  let caught err :=
    (st, [[ {| target := sock; body := ErrorEnvelope err;
               delivered := negb (throws 0 sock) |} ]]) in
  let ignored := (st, []) in
  match msg with
  | Malformed err => caught err
  | Parsed data =>
      match users st !! uid with
      | None => ignored
      | Some user =>
          let isHost := bool_decide (hostId st = Some uid) in
          match data with
          | JNull => caught typeErrorOfNull
          | JObject fields =>
              match commandOf (fields !! "type") with
              | Some vote_ =>
                  if isSpectator user then ignored
                  else broadcastState throws None
                         (set_users (<[uid := set_vote (fields !! "card") user]> (users st)) st)
              | Some reveal_ =>
                  if isHost then broadcastState throws None (set_revealed true st)
                  else ignored
              | Some reset_ =>
                  if isHost then
                    broadcastState throws None
                      (set_users (clearVotes (users st)) (set_revealed false st))
                  else ignored
              | Some setProfile_ =>
                  broadcastState throws None
                    (set_users (<[uid := applyProfile fields user]> (users st)) st)
              | Some setDeck_ =>
                  if isHost then
                    broadcastState throws None
                      (set_users (clearVotes (users st))
                         (set_revealed false (set_deck (fields !! "deckId") JNull st)))
                  else ignored
              | Some setCustomDeck_ =>
                  if isHost then
                    match fields !! "deck" with
                    | Some deck =>
                        if validDeck (Some deck) then
                          broadcastState throws None
                            (set_users (clearVotes (users st))
                               (set_revealed false (set_deck (prop deck "id") deck st)))
                        else ignored
                    | None => ignored
                    end
                  else ignored
              | None => ignored
              end
          | _ => ignored
          end
      end
  end.

(** ** The room among its connections *)

(** The room with the listeners it has installed: [accepted !! k] is the
    [userId] captured by the listeners of socket [k]. *)
Record World : Type := mkWorld {
  room : PokerRoom;
  accepted : list string
}.

Definition newWorld : World := {| room := newRoom; accepted := [] |}.

(** The parts of a request that [PokerRoom.fetch] reads. *)
Record Request : Type := mkRequest {
  q_userId : option string;
  q_isSpectator : option string;
  h_upgrade : option string
}.

(** [PokerRoom.fetch]: the status of the response, the world after it and
    the sends made. The server end of the new [WebSocketPair] is the next
    unused socket. *)
Definition fetch (throws : nat → nat → bool) (req : Request) (w : World)
  : nat * World * list (list SendCall) :=
  match q_userId req with
  | None => (400, w, [])
  | Some uid =>
      if bool_decide (uid = "") then (400, w, [])
      else if bool_decide (h_upgrade req = Some "websocket") then
        let sock := length (accepted w) in
        let spectator := bool_decide (q_isSpectator req = Some "true") in
        let r := handleSession throws sock uid spectator (room w) in
        (101, {| room := r.1; accepted := accepted w ++ [uid] |}, r.2)
      else (426, w, [])
  end.

(** What the platform delivers to a room, one at a time. *)
Inductive Event : Type :=
| Connect (req : Request)
| Message (sock : nat) (msg : Inbound)
| Close (sock : nat).

(** One event, with the oracle for the sends made while it is handled. An
    event on a socket that was never accepted cannot occur and is skipped. *)
Definition step (w : World) (e : Event * (nat → nat → bool))
  : World * list (list SendCall) :=
  let throws := e.2 in
  match e.1 with
  | Connect req => let r := fetch throws req w in (r.1.2, r.2)
  | Message sock msg =>
      match accepted w !! sock with
      | Some uid =>
          let r := onMessage throws sock uid msg (room w) in
          ({| room := r.1; accepted := accepted w |}, r.2)
      | None => (w, [])
      end
  | Close sock =>
      match accepted w !! sock with
      | Some uid =>
          let r := onClose throws sock uid (room w) in
          ({| room := r.1; accepted := accepted w |}, r.2)
      | None => (w, [])
      end
  end.

Definition run (es : list (Event * (nat → nat → bool))) : World :=
  foldl (λ w e, (step w e).1) newWorld es.

(** The worlds a room can be in. *)
Definition reachable (w : World) : Prop := ∃ es, run es = w.

(** ** The worker in front of the rooms *)

(** The class [[a-zA-Z0-9]] of the route. *)
Definition isAlnum (c : ascii) : bool :=
  let n := nat_of_ascii c in
  (48 <=? n) && (n <=? 57) || (65 <=? n) && (n <=? 90)
  || (97 <=? n) && (n <=? 122).

(** [toUpperCase] on one character of that class (only [a-z] move). *)
Definition upper (c : ascii) : ascii :=
  let n := nat_of_ascii c in
  if (97 <=? n) && (n <=? 122) then ascii_of_nat (n - 32) else c.

(** [match[1].toUpperCase()]; the group holds characters of the class only. *)
Fixpoint toUpperCase (s : string) : string :=
  match s with
  | EmptyString => EmptyString
  | String c s' => String (upper c) (toUpperCase s')
  end.

Fixpoint allAlnum (s : string) : bool :=
  match s with
  | EmptyString => true
  | String c s' => isAlnum c && allAlnum s'
  end.

(** What follows the literal [p] at the start of [s], if [s] starts so. *)
Fixpoint afterPrefix (p s : string) : option string :=
  match p with
  | EmptyString => Some s
  | String a p' =>
      match s with
      | EmptyString => None
      | String b s' => if Ascii.eqb a b then afterPrefix p' s' else None
      end
  end.

(** The default export's [fetch], up to the call of the room:
    [path.match(/^\/room\/([a-zA-Z0-9]+)$/)] and the upper-cased code given
    to [idFromName]; [None] is the 404 response. *)
Definition roomCode (pathname : string) : option string :=
  match afterPrefix "/room/" pathname with
  | Some raw =>
      if negb (bool_decide (raw = "")) && allAlnum raw
      then Some (toUpperCase raw) else None
  | None => None
  end.

(** * Vocabulary of the statements *)

(** A participant is orphaned when a dead session names it and no active
    session does. *)
Definition orphaned (active dead : list Session) (k : string) : bool :=
  hasSession dead k && negb (hasSession active k).

(** Each pass of one call reaches fewer sessions than every pass before. *)
Definition shrinking (passes : list (list SendCall)) : Prop :=
  StronglySorted (λ a b, length b < length a) passes.

(** Every pass but the last has a send that threw; the last has none. *)
Definition settles (passes : list (list SendCall)) : Prop :=
  ∃ retried final,
    passes = retried ++ [final] ∧
    Forall (Exists (λ c, delivered c = false)) retried ∧
    Forall (λ c, delivered c = true) final.

(** [remnant st st']: [st'] is [st] after some sessions, and the
    participants they leave without a session, were removed. Nothing is
    added, the participants kept are untouched, and a participant that
    still has a session is kept. *)
Record remnant (st st' : PokerRoom) : Prop := mkRemnant {
  rem_revealed : revealed st' = revealed st;
  rem_deckId : deckId st' = deckId st;
  rem_custom : activeCustomDeck st' = activeCustomDeck st;
  rem_sessions : sessions st' `sublist_of` sessions st;
  rem_userList : userList st' `sublist_of` userList st;
  rem_users : ∀ k u, users st' !! k = Some u → users st !! k = Some u;
  rem_kept : ∀ k, hasSession (sessions st') k = true →
                  users st' !! k = users st !! k
}.

(** The join order and the participant map name the same ids. *)
Definition listed (st : PokerRoom) : Prop :=
  ∀ i, i ∈ userList st ↔ is_Some (users st !! i).

(** Every session belongs to a participant. *)
Definition owned (st : PokerRoom) : Prop :=
  ∀ s, s ∈ sessions st → is_Some (users st !! userId s).

(** The payload of a custom deck, when there is one, carries the deck id. *)
Definition deckConsistent (st : PokerRoom) : Prop :=
  activeCustomDeck st ≠ JNull →
  prop (activeCustomDeck st) "id" = deckId st.

(** What holds of every reachable world: the join order and the map agree,
    sessions belong to participants, the deck fields agree, every session
    sits on the socket that was accepted for its participant, and no two
    sessions share a socket. *)
Record invariant (w : World) : Prop := mkInvariant {
  inv_listed : listed (room w);
  inv_owned : owned (room w);
  inv_deck : deckConsistent (room w);
  inv_bound : ∀ s, s ∈ sessions (room w) →
                   accepted w !! socket s = Some (userId s);
  inv_sockets : NoDup (socket <$> sessions (room w))
}.


(** A field given as [null] or as the empty string. *)
Definition cleared (v : json) : Prop := v = JNull ∨ v = JString "".

(** Every participant has a session. *)
Definition counted (st : PokerRoom) : Prop :=
  ∀ k, is_Some (users st !! k) → hasSession (sessions st) k = true.

(** Every entry of the participant map sits under its own id. *)
Definition keyed (st : PokerRoom) : Prop :=
  ∀ k u, users st !! k = Some u → user_id u = k.

(** The [type] that selects each case of the [switch]. *)
Definition typeName (c : Command) : string :=
  match c with
  | vote_ => "vote"
  | reveal_ => "reveal"
  | reset_ => "reset"
  | setProfile_ => "setProfile"
  | setDeck_ => "setDeck"
  | setCustomDeck_ => "setCustomDeck"
  end.

(** The books of the room balance: every participant has a session, sits
    under its own id, and is listed once at most. *)
Definition census (st : PokerRoom) : Prop :=
  counted st ∧ keyed st ∧ NoDup (userList st).

(** A participant of both rooms has the same id and spectator flag in both. *)
Definition sameIdentity (st st' : PokerRoom) : Prop :=
  ∀ k u u', users st !! k = Some u → users st' !! k = Some u' →
            user_id u' = user_id u ∧ isSpectator u' = isSpectator u.

(** [edits uid st st1]: [st1] is [st] after the assignments of one command
    of [uid], before the broadcast. The sessions, the join order and the
    set of participants are the same; nobody changes id or spectator flag;
    of the others only the vote can change, and only to [null]; and unless
    [uid] is the host, the round, the deck and the others are untouched. *)
Record edits (uid : string) (st st1 : PokerRoom) : Prop := mkEdits {
  ed_sessions : sessions st1 = sessions st;
  ed_userList : userList st1 = userList st;
  ed_dom : ∀ k, is_Some (users st1 !! k) ↔ is_Some (users st !! k);
  ed_identity : sameIdentity st st1;
  ed_others : ∀ k u u1, k ≠ uid →
      users st !! k = Some u → users st1 !! k = Some u1 →
      name u1 = name u ∧ avatar u1 = avatar u ∧ colorId u1 = colorId u ∧
      (vote u1 = vote u ∨ vote u1 = Some JNull);
  ed_guest : hostId st ≠ Some uid →
      revealed st1 = revealed st ∧ deckId st1 = deckId st ∧
      activeCustomDeck st1 = activeCustomDeck st ∧
      ∀ k, k ≠ uid → users st1 !! k = users st !! k
}.

(** The names every object inherits from [Object.prototype]. Under such a
    name [this.users[userId]] finds the inherited member, not an entry. *)
Definition inheritedNames : list string :=
  ["constructor"; "__proto__"; "hasOwnProperty"; "isPrototypeOf";
   "propertyIsEnumerable"; "toLocaleString"; "toString"; "valueOf";
   "__defineGetter__"; "__defineSetter__"; "__lookupGetter__";
   "__lookupSetter__"].

Definition inherited (k : string) : bool := bool_decide (k ∈ inheritedNames).

(** No socket of the room was accepted under an inherited name. No listener
    of the room has then written to [Object.prototype] or to one of its
    members, and [this.users[id]], [data.name], ['avatar' in data] and
    [deck.name] find own properties only, as the lookups of the model do. *)
Definition unpolluted (w : World) : bool :=
  forallb (λ k, negb (inherited k)) (accepted w).

(** Every character is below 128: bytes and UTF-16 code units then agree,
    and [substring(0, 4)] cuts where [String.substring 0 4] does. *)
Fixpoint sevenBit (s : string) : bool :=
  match s with
  | EmptyString => true
  | String c s' => (nat_of_ascii c <? 128) && sevenBit s'
  end.

(** What the check of [case 'setCustomDeck'] lets through: an object with a
    truthy [id], a truthy [name] and an array as [cards]. *)
Definition deckShape (d : json) : Prop :=
  ∃ props i n cards,
    d = JObject props ∧
    props !! "id" = Some i ∧ toBoolean (Some i) = true ∧
    props !! "name" = Some n ∧ toBoolean (Some n) = true ∧
    props !! "cards" = Some (JArray cards).

(** * Scenarios used to exercise the statements *)

(** No send throws. *)
Definition quiet : nat → nat → bool := λ _ _, false.

(** In the first pass, the sends on socket [k] throw. *)
Definition failsOnce (k : nat) : nat → nat → bool :=
  λ pass sock, bool_decide (pass = 0 ∧ sock = k).

(** A well-formed upgrade request for [uid]. *)
Definition connect (uid : string) (spectator : bool) : Event :=
  Connect {| q_userId := Some uid;
             q_isSpectator := Some (if spectator then "true" else "false");
             h_upgrade := Some "websocket" |}.

(** The object with the given properties. *)
Definition object (l : list (string * json)) : json := JObject (list_to_map l).

(** The message [{type, ...l}] arriving on [sock]. *)
Definition command (sock : nat) (type : string) (l : list (string * json)) : Event :=
  Message sock (Parsed (object (("type", JString type) :: l))).

(** A spectator joins, then a voter, who opens a second tab. *)
Definition demo : World :=
  run [(connect "ann" true, quiet); (connect "bob" false, quiet);
       (connect "bob" false, quiet)].

(** Bob, the host of [demo], has voted and revealed. *)
Definition demoRevealed : World :=
  run [(connect "ann" true, quiet); (connect "bob" false, quiet);
       (connect "bob" false, quiet);
       (command 1 "vote" [("card", JString "8")], quiet);
       (command 1 "reveal" [], quiet)].

(** Bob has closed both tabs: the spectator is alone. *)
Definition demoSpectators : World :=
  run [(connect "ann" true, quiet); (connect "bob" false, quiet);
       (connect "bob" false, quiet); (Close 1, quiet); (Close 2, quiet)].

(** A custom deck of one card. *)
Definition planets : json :=
  object [("id", JString "planets"); ("name", JString "Planets");
          ("cards", JArray [object [("value", JString "Mars");
                                    ("color", JString "red")]])].

(** Bob, the host of [demo], has chosen a deck of his own. *)
Definition demoCustom : World :=
  run [(connect "ann" true, quiet); (connect "bob" false, quiet);
       (connect "bob" false, quiet);
       (command 1 "setCustomDeck" [("deck", planets)], quiet)].

(** Ann has chosen a name, an avatar and a colour. *)
Definition demoNamed : World :=
  run [(connect "ann" false, quiet);
       (command 0 "setProfile" [("name", JString "Ann");
                               ("avatar", JString "fox");
                               ("colorId", JString "teal")], quiet)].

(** The room after Ann sends setProfile with [name] given as [v]. *)
Definition renamed (v : json) : PokerRoom :=
  (onMessage quiet 0 "ann"
     (Parsed (object [("type", JString "setProfile"); ("name", v)]))
     (room demoNamed)).1.

(** A raw message is broadcast in [demo]; the send to socket 0 throws. *)
Definition notified : PokerRoom * list (list SendCall) :=
  broadcastState (failsOnce 0) (Some "notice") (room demo).

(** Ann is alone in the room. *)
Definition annAlone : World := run [(connect "ann" false, quiet)].

(** Ann chooses a name, an avatar and a colour; no send throws. *)
Definition annSetsProfile : Event * (nat → nat → bool) :=
  (command 0 "setProfile" [("name", JString "Ann");
                          ("avatar", JString "fox");
                          ("colorId", JString "teal")], quiet).

(** Ann's entry after that. *)
Definition annNamed : User :=
  {| user_id := "ann"; name := JString "Ann"; vote := Some JNull;
     avatar := Some (JString "fox"); colorId := JString "teal";
     isSpectator := false |}.

(** Ann, the spectator of [demoRevealed], sets her name. *)
Definition annRenames : Inbound :=
  Parsed (object [("type", JString "setProfile"); ("name", JString "Bob")]).

(** Bob's entry in [demoRevealed]. *)
Definition bobVoted : User :=
  set_vote (Some (JString "8")) (defaultUser "bob" false).

(** Ann's socket went dead: the send to it threw when bob joined. *)
Definition annDropped : World :=
  run [(connect "ann" false, quiet); (connect "bob" false, failsOnce 0)].

(** Bob, the host of [demoRevealed], picks another deck. *)
Definition bobSetsDeck : gmap string json :=
  list_to_map [("type", JString "setDeck"); ("deckId", JString "tshirt")].

(** Bob, the host of [demo], sends a deck whose [cards] is not an array. *)
Definition bobSendsBadDeck : gmap string json :=
  list_to_map [("type", JString "setCustomDeck");
               ("deck", object [("id", JString "planets");
                                ("name", JString "Planets");
                                ("cards", JString "Mars")])].

(** Bob, the host of [demo], sends the deck [planets]. *)
Definition bobSendsPlanets : gmap string json :=
  list_to_map [("type", JString "setCustomDeck"); ("deck", planets)].

(** The sends on sockets 0 and 1 throw in the first pass. *)
Definition failsOnceBoth : nat → nat → bool :=
  λ pass sock, bool_decide (pass = 0 ∧ (sock = 0 ∨ sock = 1)).

(** Ann, named "Ann", sends an empty name and a [null] avatar. *)
Definition annClearsProfile : gmap string json :=
  list_to_map [("type", JString "setProfile");
               ("name", JString ""); ("avatar", JNull)].

(** * Properties *)

(** ** The model on the scenario of the specification *)

Example demo_sessions :
  sessions (room demo) =
  [mkSession 0 "ann"; mkSession 1 "bob"; mkSession 2 "bob"].
Proof. reflexivity. Qed.

Example demo_join_order : userList (room demo) = ["ann"; "bob"].
Proof. reflexivity. Qed.

Example demoRevealed_vote :
  revealed (room demoRevealed) = true ∧
  vote <$> users (room demoRevealed) !! "bob" = Some (Some (JString "8")) ∧
  vote <$> users (room demoRevealed) !! "ann" = Some (Some JNull).
Proof. repeat split. Qed.

Example bad_request_rejected :
  (fetch quiet (mkRequest None None (Some "websocket")) demo).1 = (400, demo) ∧
  (fetch quiet (mkRequest (Some "") None (Some "websocket")) demo).1 = (400, demo) ∧
  (fetch quiet (mkRequest (Some "cat") None None) demo).1 = (426, demo).
Proof. repeat split. Qed.

Example null_message_is_an_error :
  onMessage quiet 1 "bob" (Parsed JNull) (room demo) =
  (room demo, [[mkSend 1 (ErrorEnvelope typeErrorOfNull) true]]).
Proof. reflexivity. Qed.

(** ** Unfolding and induction for [broadcastState] *)

Lemma broadcastState_step throws message st :
  broadcastState throws message st =
  match deadSessions (throws 0) (sessions st) with
  | [] => (st, [sendAll (throws 0) (outgoing message st) (sessions st)])
  | d :: ds =>
      let r := broadcastState (λ n, throws (S n)) None (removeDead (d :: ds) st) in
      (r.1, sendAll (throws 0) (outgoing message st) (sessions st) :: r.2)
  end.
Proof.
  apply (broadcastState_elim (λ throws message st r, r =
    match deadSessions (throws 0) (sessions st) with
    | [] => (st, [sendAll (throws 0) (outgoing message st) (sessions st)])
    | d :: ds =>
        let r := broadcastState (λ n, throws (S n)) None (removeDead (d :: ds) st) in
        (r.1, sendAll (throws 0) (outgoing message st) (sessions st) :: r.2)
    end)); clear throws message st.
  - intros throws message st Hdead _. by rewrite Hdead.
  - intros throws message st d ds Hdead _ _. by rewrite Hdead.
Qed.

(** Induction along the passes: a property of the result holds when it
    holds of a pass without failure and is carried over a retry. *)
Lemma broadcastState_passes_ind
    (P : (nat → nat → bool) → option string → PokerRoom →
         PokerRoom * list (list SendCall) → Prop) :
  (∀ throws message st,
     deadSessions (throws 0) (sessions st) = [] →
     P throws message st
       (st, [sendAll (throws 0) (outgoing message st) (sessions st)])) →
  (∀ throws message st dead r,
     deadSessions (throws 0) (sessions st) = dead → dead ≠ [] →
     r = broadcastState (λ n, throws (S n)) None (removeDead dead st) →
     P (λ n, throws (S n)) None (removeDead dead st) r →
     P throws message st
       (r.1, sendAll (throws 0) (outgoing message st) (sessions st) :: r.2)) →
  ∀ throws message st, P throws message st (broadcastState throws message st).
Proof.
  intros Hquiet Hretry throws message st.
  apply (broadcastState_elim P); clear throws message st.
  - intros throws message st Hdead _. by apply Hquiet.
  - intros throws message st d ds Hdead IH _. simpl.
    by apply (Hretry throws message st (d :: ds)).
Qed.

(** ** Lists *)

Section lists.
Context {A : Type} (P : A → Prop) `{!∀ x, Decision (P x)}.

Lemma filter_keeps_all (l : list A) :
  (∀ x, x ∈ l → P x) → filter P l = l.
Proof.
  induction l as [|a l IH]; intros Hall; [done|].
  rewrite filter_cons_True by (apply Hall; left).
  f_equal. apply IH. intros x Hx. apply Hall. by right.
Qed.

End lists.

(** ** Removing dead sessions *)

Lemma hasSession_true ss k :
  hasSession ss k = true ↔ ∃ s, s ∈ ss ∧ userId s = k.
Proof.
  unfold hasSession. rewrite existsb_exists. split.
  - intros (s & Hin & Hk). exists s. rewrite list_elem_of_In.
    split; [done | by apply bool_decide_eq_true in Hk].
  - intros (s & Hin & Hk). exists s. rewrite <- list_elem_of_In.
    split; [done | by apply bool_decide_eq_true].
Qed.

Lemma hasSession_false ss k :
  hasSession ss k = false ↔ ∀ s, s ∈ ss → userId s ≠ k.
Proof.
  rewrite <- not_true_iff_false, hasSession_true. split.
  - intros Hno s Hin Hk. apply Hno. by exists s.
  - intros Hall (s & Hin & Hk). by apply (Hall s).
Qed.

Lemma orphaned_cons active s dead k :
  orphaned active (s :: dead) k =
  (bool_decide (userId s = k) && negb (hasSession active k)) || orphaned active dead k.
Proof.
  unfold orphaned. simpl.
  destruct (bool_decide (userId s = k)), (hasSession dead k),
    (hasSession active k); reflexivity.
Qed.

Lemma sweepDead_lookup active dead p k :
  (sweepDead active dead p).1 !! k =
  if orphaned active dead k then None else p.1 !! k.
Proof.
  revert p. induction dead as [|s dead IH]; intros p.
  - unfold orphaned. reflexivity.
  - unfold sweepDead in *. simpl. rewrite IH, orphaned_cons.
    destruct (orphaned active dead k); [by rewrite orb_true_r|].
    rewrite orb_false_r.
    destruct (hasSession active (userId s)) eqn:Hact.
    + case_bool_decide as Hk; [|done]. subst k. by rewrite Hact.
    + simpl. case_bool_decide as Hk.
      * subst k. rewrite Hact. simpl. apply lookup_delete_eq.
      * simpl. by apply lookup_delete_ne.
Qed.

Lemma sweepDead_list active dead p :
  (sweepDead active dead p).2 =
  filter (λ i, orphaned active dead i = false) p.2.
Proof.
  revert p. induction dead as [|s dead IH]; intros p.
  - unfold orphaned. simpl. symmetry. by apply filter_keeps_all.
  - unfold sweepDead in *. simpl. rewrite IH.
    destruct (hasSession active (userId s)) eqn:Hact.
    + apply list_filter_iff. intros i. rewrite orphaned_cons.
      case_bool_decide as Hk; [|done]. subst i. by rewrite Hact.
    + simpl. rewrite list_filter_filter. apply list_filter_iff.
      intros i. rewrite orphaned_cons.
      case_bool_decide as Hk; simpl.
      * subst i. rewrite Hact. simpl. intuition congruence.
      * intuition congruence.
Qed.

Lemma sessions_removeDead dead st :
  sessions (removeDead dead st) = filter (λ s, s ∉ dead) (sessions st).
Proof. reflexivity. Qed.

Lemma users_removeDead dead st k :
  users (removeDead dead st) !! k =
  if orphaned (filter (λ s, s ∉ dead) (sessions st)) dead k then None
  else users st !! k.
Proof. apply sweepDead_lookup. Qed.

Lemma userList_removeDead dead st :
  userList (removeDead dead st) =
  filter (λ i, orphaned (filter (λ s, s ∉ dead) (sessions st)) dead i = false)
    (userList st).
Proof. apply sweepDead_list. Qed.

(** ** One pass of sends *)

Lemma length_sendAll throws m ss : length (sendAll throws m ss) = length ss.
Proof. apply length_fmap. Qed.

Lemma sendAll_no_failure throws m ss :
  deadSessions throws ss = [] →
  Forall (λ c, delivered c = true) (sendAll throws m ss).
Proof.
  intros Hdead. apply Forall_fmap, Forall_forall. intros s Hs. simpl.
  destruct (throws (socket s)) eqn:Hthrow; [|done].
  assert (Hin : s ∈ deadSessions throws ss)
    by (apply list_elem_of_filter; done).
  rewrite Hdead in Hin. by apply elem_of_nil in Hin.
Qed.

Lemma sendAll_some_failure throws m ss :
  deadSessions throws ss ≠ [] →
  Exists (λ c, delivered c = false) (sendAll throws m ss).
Proof.
  intros Hdead. destruct (deadSessions throws ss) as [|d ds] eqn:Heq; [done|].
  assert (Hin : d ∈ deadSessions throws ss) by (rewrite Heq; left).
  apply list_elem_of_filter in Hin as [Hthrow Hin].
  apply Exists_fmap, Exists_exists. exists d. split; [done|].
  simpl. by rewrite Hthrow.
Qed.

Lemma removeDead_shrinks throws dead st :
  deadSessions throws (sessions st) = dead → dead ≠ [] →
  length (sessions (removeDead dead st)) < length (sessions st).
Proof.
  intros Heq Hne. destruct dead as [|d ds]; [done|].
  rewrite sessions_removeDead. apply (length_filter_lt _ _ d).
  - assert (Hin : d ∈ deadSessions throws (sessions st))
      by (rewrite Heq; left).
    by apply list_elem_of_filter in Hin as [_ Hin].
  - intros Hn. apply Hn. left.
Qed.

Lemma broadcastState_passes throws message st :
  let r := broadcastState throws message st in
  Forall (λ pass, length pass ≤ length (sessions st)) r.2 ∧
  shrinking r.2 ∧ settles r.2 ∧ length r.2 ≤ S (length (sessions st)).
Proof.
  apply (broadcastState_passes_ind (λ _ _ st r,
    Forall (λ pass, length pass ≤ length (sessions st)) r.2 ∧
    shrinking r.2 ∧ settles r.2 ∧ length r.2 ≤ S (length (sessions st))));
    clear throws message st.
  - intros throws message st Hdead. simpl. split_and!.
    + apply Forall_singleton. by rewrite length_sendAll.
    + repeat constructor.
    + exists [], (sendAll (throws 0) (outgoing message st) (sessions st)).
      split_and!; [done | constructor | by apply sendAll_no_failure].
    + lia.
  - intros throws message st dead r Hdead Hne _ (Hlen & Hsort & Hset & Hcount).
    pose proof (removeDead_shrinks _ _ _ Hdead Hne) as Hlt. simpl. split_and!.
    + constructor; [by rewrite length_sendAll|].
      eapply Forall_impl; [exact Hlen|]. cbn beta. intros pass Hp. lia.
    + constructor; [done|]. rewrite length_sendAll.
      eapply Forall_impl; [exact Hlen|]. cbn beta. intros pass Hp. lia.
    + destruct Hset as (retried & final & -> & Hretried & Hfinal).
      exists (sendAll (throws 0) (outgoing message st) (sessions st) :: retried), final.
      split_and!; [done | | done].
      constructor; [|done]. apply sendAll_some_failure. by rewrite Hdead.
    + lia.
Qed.

(** C3. [broadcastState] returns for every room, message and behaviour of
    the sockets (it is a total function). A pass in which a send throws
    removes the sessions that failed before the next pass, so the next
    pass starts with strictly fewer sessions; the passes therefore reach
    ever fewer sessions, there are at most one more of them than there are
    sessions, every pass before the last had a failure and the last pass
    has none. *)
Theorem C3_broadcast_retry_terminates throws message st :
  (∀ dead, deadSessions (throws 0) (sessions st) = dead → dead ≠ [] →
     length (sessions (removeDead dead st)) < length (sessions st) ∧
     ∀ s, s ∈ dead → s ∉ sessions (removeDead dead st)) ∧
  shrinking (broadcastState throws message st).2 ∧
  length (broadcastState throws message st).2 ≤ S (length (sessions st)) ∧
  settles (broadcastState throws message st).2.
Proof.
  destruct (broadcastState_passes throws message st) as (_ & Hsort & Hset & Hcount).
  split_and!; try done.
  intros dead Hdead Hne. split; [by eapply removeDead_shrinks|].
  intros s Hs. rewrite sessions_removeDead, list_elem_of_filter. tauto.
Qed.

(** ** What a broadcast can change *)

Lemma remnant_refl st : remnant st st.
Proof. by split. Qed.

Lemma remnant_trans st1 st2 st3 :
  remnant st1 st2 → remnant st2 st3 → remnant st1 st3.
Proof.
  intros [] []. split; try congruence; try (by etrans); [by auto|].
  intros k Hk. rewrite rem_kept1 by done. apply rem_kept0.
  apply hasSession_true in Hk as (s & Hs & Hsk). apply hasSession_true.
  exists s. split; [by eapply elem_of_sublist|done].
Qed.

Lemma remnant_removeDead dead st : remnant st (removeDead dead st).
Proof.
  split; try reflexivity.
  - rewrite sessions_removeDead. apply sublist_filter.
  - rewrite userList_removeDead. apply sublist_filter.
  - intros k u. rewrite users_removeDead. by case_match.
  - intros k Hk. rewrite users_removeDead. unfold orphaned.
    rewrite sessions_removeDead in Hk. rewrite Hk.
    by rewrite andb_false_r.
Qed.

Lemma remnant_broadcastState throws message st :
  remnant st (broadcastState throws message st).1.
Proof.
  apply (broadcastState_passes_ind (λ _ _ st r, remnant st r.1));
    clear throws message st.
  - intros. apply remnant_refl.
  - intros throws message st dead r _ _ _ IH. simpl.
    eapply remnant_trans; [apply remnant_removeDead | exact IH].
Qed.

Lemma listed_removeDead dead st : listed st → listed (removeDead dead st).
Proof.
  intros Hl i. rewrite userList_removeDead, users_removeDead.
  rewrite list_elem_of_filter, (Hl i).
  destruct (orphaned _ dead i); [|tauto].
  split; [by intros [? _] | by intros []].
Qed.

Lemma owned_remnant st st' : remnant st st' → owned st → owned st'.
Proof.
  intros Hrem Ho s Hs. rewrite (rem_kept _ _ Hrem).
  - apply Ho. eapply elem_of_sublist; [exact Hs | apply Hrem].
  - apply hasSession_true. by exists s.
Qed.

Lemma listed_broadcastState throws message st :
  listed st → listed (broadcastState throws message st).1.
Proof.
  apply (broadcastState_passes_ind (λ _ _ st r, listed st → listed r.1));
    clear throws message st.
  - by intros.
  - intros throws message st dead r _ _ _ IH Hl. simpl.
    by apply IH, listed_removeDead.
Qed.

(** ** Invariants of the reachable worlds *)

Lemma invariant_newWorld : invariant newWorld.
Proof.
  split; unfold newWorld, newRoom; simpl.
  - intros i. simpl. rewrite lookup_empty, elem_of_nil.
    split; [done | by intros []].
  - intros s Hs. by apply elem_of_nil in Hs.
  - by intros [].
  - intros s Hs. by apply elem_of_nil in Hs.
  - constructor.
Qed.

(** A broadcast keeps the invariant of a room whose sessions are those of
    a world that had it. *)
Lemma invariant_broadcastState a st st1 throws message :
  invariant (mkWorld st a) →
  sessions st1 `sublist_of` sessions st →
  listed st1 → owned st1 → deckConsistent st1 →
  invariant (mkWorld (broadcastState throws message st1).1 a).
Proof.
  intros [_ _ _ Hbound Hnodup] Hsub Hlisted Howned Hdeck.
  pose proof (remnant_broadcastState throws message st1) as Hrem.
  assert (Hsub' : sessions (broadcastState throws message st1).1
                    `sublist_of` sessions st)
    by (etrans; [apply (rem_sessions _ _ Hrem) | done]).
  split; simpl in *.
  - by apply listed_broadcastState.
  - by apply (owned_remnant st1).
  - unfold deckConsistent.
    rewrite (rem_custom _ _ Hrem), (rem_deckId _ _ Hrem). exact Hdeck.
  - intros s Hs. apply Hbound. by eapply elem_of_sublist.
  - eapply sublist_NoDup; [exact Hnodup|]. by apply fmap_sublist.
Qed.

Lemma listed_same_ids st st1 :
  userList st1 = userList st →
  (∀ i, is_Some (users st1 !! i) ↔ is_Some (users st !! i)) →
  listed st → listed st1.
Proof. intros Hul Hdom Hl i. by rewrite Hul, Hdom. Qed.

Lemma owned_same_ids st st1 :
  sessions st1 = sessions st →
  (∀ i, is_Some (users st1 !! i) ↔ is_Some (users st !! i)) →
  owned st → owned st1.
Proof. intros Hss Hdom Ho s. rewrite Hss, Hdom. apply Ho. Qed.

Lemma is_Some_insert_present (us : gmap string User) uid u v i :
  us !! uid = Some u →
  is_Some (<[uid := v]> us !! i) ↔ is_Some (us !! i).
Proof.
  intros Hu. destruct (decide (uid = i)) as [->|Hne].
  - rewrite lookup_insert_eq, Hu. split; eauto.
  - by rewrite lookup_insert_ne.
Qed.

Lemma is_Some_clearVotes (us : gmap string User) i :
  is_Some (clearVotes us !! i) ↔ is_Some (us !! i).
Proof. unfold clearVotes. rewrite lookup_fmap. apply fmap_is_Some. Qed.

Lemma invariant_register w uid spectator :
  invariant w →
  let st1 := register (length (accepted w)) uid spectator (room w) in
  invariant (mkWorld st1 (accepted w ++ [uid])).
Proof.
  intros [Hlisted Howned Hdeck Hbound Hnodup]. simpl.
  assert (Hsess : ∀ st', sessions st' = sessions (room w) ++
                           [mkSession (length (accepted w)) uid] →
    (∀ s, s ∈ sessions st' → (accepted w ++ [uid]) !! socket s = Some (userId s))
    ∧ NoDup (socket <$> sessions st')).
  { intros st' ->. split.
    - intros s [Hs | Hs]%elem_of_app.
      + rewrite lookup_app_l; [by apply Hbound|].
        eapply lookup_lt_Some. by apply Hbound.
      + apply list_elem_of_singleton in Hs as ->. simpl.
        by rewrite lookup_app_r, Nat.sub_diag.
    - rewrite fmap_app. apply NoDup_app. split_and!; [done | | apply NoDup_singleton].
      intros x Hx Hx'. apply list_elem_of_singleton in Hx'. simpl in Hx'.
      apply list_elem_of_fmap in Hx as (s & -> & Hs).
      apply Hbound, lookup_lt_Some in Hs. lia. }
  unfold register. simpl. destruct (users (room w) !! uid) eqn:Hu.
  - destruct (Hsess (set_sessions (sessions (room w) ++
                       [mkSession (length (accepted w)) uid]) (room w)) eq_refl).
    split; try done.
    intros s [Hs | Hs]%elem_of_app; [by apply Howned|].
    apply list_elem_of_singleton in Hs as ->. simpl. by rewrite Hu.
  - destruct (Hsess (set_sessions (sessions (room w) ++
                       [mkSession (length (accepted w)) uid]) (room w)) eq_refl).
    split; simpl; try done.
    2: { intros s Hs. simpl. rewrite lookup_insert_is_Some'.
         apply elem_of_app in Hs as [Hs | Hs]; [right; by apply Howned|].
         apply list_elem_of_singleton in Hs as ->. by left. }
    intros i. simpl. rewrite elem_of_app, list_elem_of_singleton, (Hlisted i).
    rewrite lookup_insert_is_Some. destruct (decide (uid = i)); intuition congruence.
Qed.

Lemma listed_unregister sock uid st : listed st → listed (unregister sock uid st).
Proof.
  intros Hl. unfold unregister. case_match; [done|].
  intros i. simpl. rewrite list_elem_of_filter, (Hl i), lookup_delete_is_Some.
  intuition congruence.
Qed.

Lemma owned_unregister sock uid st : owned st → owned (unregister sock uid st).
Proof.
  intros Ho. unfold unregister.
  destruct (hasSession _ uid) eqn:Hhas; intros s Hs; simpl in *.
  - apply Ho. by apply list_elem_of_filter in Hs as [_ Hs].
  - rewrite lookup_delete_is_Some. split.
    + intros Heq. rewrite hasSession_false in Hhas. by apply (Hhas s).
    + apply Ho. by apply list_elem_of_filter in Hs as [_ Hs].
Qed.

Lemma sessions_unregister sock uid st :
  sessions (unregister sock uid st) = filter (λ s, socket s ≠ sock) (sessions st).
Proof. unfold unregister. by case_match. Qed.

Lemma deckConsistent_unregister sock uid st :
  deckConsistent st → deckConsistent (unregister sock uid st).
Proof. unfold unregister, deckConsistent. by case_match. Qed.

Lemma invariant_onMessage a st throws sock uid msg :
  invariant (mkWorld st a) →
  invariant (mkWorld (onMessage throws sock uid msg st).1 a).
Proof.
  intros Hinv. pose proof Hinv as [Hlisted Howned Hdeck _ _]. simpl in *.
  unfold onMessage.
  repeat (case_match; try done);
    (apply (invariant_broadcastState a st); [done | done | | |]);
    try (first [ apply (listed_same_ids st); [reflexivity | | exact Hlisted]
               | apply (owned_same_ids st); [reflexivity | | exact Howned] ];
         intros i; simpl;
         first [ by eapply is_Some_insert_present
               | apply is_Some_clearVotes ]);
    try done.
  unfold deckConsistent. simpl. by intros [].
Qed.

Lemma invariant_step w e : invariant w → invariant (step w e).1.
Proof.
  intros Hinv. destruct e as [[req | sock msg | sock] throws];
    unfold step; simpl.
  - unfold fetch. repeat (case_match; try done). simpl.
    pose proof (invariant_register w s
                  (bool_decide (q_isSpectator req = Some "true")) Hinv) as Hreg.
    simpl in Hreg. unfold handleSession.
    apply (invariant_broadcastState _ _ _ _ _ Hreg); [done | apply Hreg..].
  - destruct (accepted w !! sock) as [uid|]; [|done]. simpl.
    apply invariant_onMessage. by destruct w.
  - destruct (accepted w !! sock) as [uid|]; [|done]. simpl.
    pose proof Hinv as [Hlisted Howned Hdeck _ _].
    unfold onClose. apply (invariant_broadcastState _ (room w)).
    + by destruct w.
    + rewrite sessions_unregister. apply sublist_filter.
    + by apply listed_unregister.
    + by apply owned_unregister.
    + by apply deckConsistent_unregister.
Qed.

Lemma step_message w sock uid msg throws :
  accepted w !! sock = Some uid →
  step w (Message sock msg, throws) =
  (mkWorld (onMessage throws sock uid msg (room w)).1 (accepted w),
   (onMessage throws sock uid msg (room w)).2).
Proof. intros Hsock. unfold step. simpl. by rewrite Hsock. Qed.

Lemma run_snoc es e : run (es ++ [e]) = (step (run es) e).1.
Proof. unfold run. by rewrite foldl_app. Qed.

Lemma reachable_invariant w : reachable w → invariant w.
Proof.
  intros [es <-]. induction es as [|e es IH] using rev_ind.
  - apply invariant_newWorld.
  - rewrite run_snoc. by apply invariant_step.
Qed.

Lemma reachable_run es : reachable (run es).
Proof. by exists es. Qed.

(** ** The host *)

Lemma find_Some_first {A} (f : A → bool) (l : list A) (x : A) :
  List.find f l = Some x ↔
  ∃ l1 l2, l = l1 ++ x :: l2 ∧ f x = true ∧ ∀ y, y ∈ l1 → f y = false.
Proof.
  induction l as [|a l IH]; simpl.
  - split; [done|]. intros (l1 & l2 & Heq & _). by destruct l1.
  - destruct (f a) eqn:Hfa.
    + split.
      * intros [= <-]. exists [], l. split_and!; [done..|].
        intros y Hy. by apply elem_of_nil in Hy.
      * intros (l1 & l2 & Heq & Hfx & Hl1). destruct l1 as [|b l1].
        -- by injection Heq as -> _.
        -- injection Heq as <- _. rewrite Hl1 in Hfa; [done | left].
    + rewrite IH. split.
      * intros (l1 & l2 & -> & Hfx & Hl1). exists (a :: l1), l2.
        split_and!; [done..|]. intros y [->|Hy]%elem_of_cons; auto.
      * intros (l1 & l2 & Heq & Hfx & Hl1). destruct l1 as [|b l1].
        -- injection Heq as -> _. congruence.
        -- injection Heq as <- ->. exists l1, l2. split_and!; [done..|].
           intros y Hy. apply Hl1. by right.
Qed.

Lemma find_None_all {A} (f : A → bool) (l : list A) :
  List.find f l = None ↔ ∀ y, y ∈ l → f y = false.
Proof.
  induction l as [|a l IH]; simpl.
  - split; [|done]. intros _ y Hy. by apply elem_of_nil in Hy.
  - destruct (f a) eqn:Hfa.
    + split; [done|]. intros Hall. rewrite Hall in Hfa; [done | left].
    + rewrite IH. split.
      * intros Hall y [->|Hy]%elem_of_cons; auto.
      * intros Hall y Hy. apply Hall. by right.
Qed.

Lemma canHost_true st i :
  canHost st i = true ↔ ∃ u, users st !! i = Some u ∧ isSpectator u = false.
Proof.
  unfold canHost. destruct (users st !! i) as [u|].
  - rewrite negb_true_iff. split; [by exists u | by intros (? & [= <-] & ?)].
  - split; [done | by intros (? & ? & _)].
Qed.

(** A participant of the join order that cannot host is a spectator. *)
Lemma canHost_false st i :
  listed st → i ∈ userList st →
  canHost st i = false ↔ ∃ u, users st !! i = Some u ∧ isSpectator u = true.
Proof.
  intros Hl Hi. apply Hl in Hi as [u Hu]. unfold canHost. rewrite Hu.
  rewrite negb_false_iff. split; [by exists u | by intros (? & [= <-] & ?)].
Qed.

Lemma onMessage_not_host throws sock uid fields c st :
  commandOf (fields !! "type") = Some c → privileged c = true →
  hostId st ≠ Some uid →
  onMessage throws sock uid (Parsed (JObject fields)) st = (st, []).
Proof.
  intros Hc Hpriv Hhost. unfold onMessage. rewrite Hc.
  destruct (users st !! uid); [|done].
  rewrite bool_decide_eq_false_2 by done. by destruct c.
Qed.

(** C1. In a reachable world the host used by the message listener,
    [hostId], is [h] exactly when the join order reads [before ++ h ::
    after] with [h] a participant that is not a spectator and every id of
    [before] a participant that is one; there is no host exactly when
    every id of the join order is a spectator (so also when the room is
    empty); and without a host the commands reveal, reset, setDeck and
    setCustomDeck, from any socket and participant, change nothing and
    send nothing. *)
Theorem C1_host_is_first_non_spectator (w : World) :
  reachable w →
  (∀ h, hostId (room w) = Some h ↔
        ∃ before after u,
          userList (room w) = before ++ h :: after ∧
          users (room w) !! h = Some u ∧ isSpectator u = false ∧
          ∀ i, i ∈ before →
               ∃ v, users (room w) !! i = Some v ∧ isSpectator v = true) ∧
  (hostId (room w) = None ↔
     ∀ i, i ∈ userList (room w) →
          ∃ v, users (room w) !! i = Some v ∧ isSpectator v = true) ∧
  (userList (room w) = [] → hostId (room w) = None) ∧
  (hostId (room w) = None →
   ∀ throws sock uid fields c,
     commandOf (fields !! "type") = Some c → privileged c = true →
     onMessage throws sock uid (Parsed (JObject fields)) (room w) = (room w, [])).
Proof.
  intros Hreach. apply reachable_invariant in Hreach as [Hl _ _ _ _].
  set (st := room w) in *. split_and!.
  - intros h. unfold hostId. rewrite find_Some_first. split.
    + intros (l1 & l2 & Heq & [u [Hu Hsp]]%canHost_true & Hl1).
      exists l1, l2, u. split_and!; [done..|]. intros i Hi.
      apply (canHost_false st i Hl); [|by apply Hl1].
      rewrite Heq. apply elem_of_app. by left.
    + intros (l1 & l2 & u & Heq & Hu & Hsp & Hl1). exists l1, l2.
      split_and!; [done | apply canHost_true; by exists u |].
      intros i Hi. apply (canHost_false st i Hl); [|by apply Hl1].
      rewrite Heq. apply elem_of_app. by left.
  - unfold hostId. rewrite find_None_all. split.
    + intros Hall i Hi. apply (canHost_false st i Hl Hi). by apply Hall.
    + intros Hall i Hi. apply (canHost_false st i Hl Hi). by apply Hall.
  - unfold hostId. by intros ->.
  - intros Hnone throws sock uid fields c Hc Hpriv.
    apply (onMessage_not_host _ _ _ _ c); [done..|]. by rewrite Hnone.
Qed.

Lemma C1_host_witness :
  (reachable demo ∧ hostId (room demo) = Some "bob") ∧
  (reachable demoSpectators ∧
   userList (room demoSpectators) = ["ann"] ∧
   hostId (room demoSpectators) = None ∧
   onMessage quiet 0 "ann" (Parsed (object [("type", JString "reset")]))
     (room demoSpectators) = (room demoSpectators, [])).
Proof.
  split; (split; [apply reachable_run|]).
  - apply (C1_host_is_first_non_spectator demo (reachable_run _)).
    exists ["ann"], [], (defaultUser "bob" false).
    split_and!; [reflexivity.. |].
    intros i Hi. apply list_elem_of_singleton in Hi as ->.
    exists (defaultUser "ann" true). split; reflexivity.
  - destruct (C1_host_is_first_non_spectator demoSpectators (reachable_run _))
      as (_ & Hnone & _ & Hnoop).
    assert (Hhost : hostId (room demoSpectators) = None).
    { apply Hnone. intros i Hi. apply list_elem_of_singleton in Hi as ->.
      exists (defaultUser "ann" true). split; reflexivity. }
    split; [reflexivity|]. split; [exact Hhost|].
    apply (Hnoop Hhost quiet 0 "ann" _ reset_); reflexivity.
Defined.

(** ** Commands of the host *)

Lemma hostId_is_participant st uid :
  hostId st = Some uid → ∃ u, users st !! uid = Some u ∧ isSpectator u = false.
Proof.
  unfold hostId. rewrite find_Some_first.
  intros (_ & _ & _ & Hcan & _). by apply canHost_true.
Qed.

Lemma clearVotes_vote us i u :
  clearVotes us !! i = Some u → vote u = Some JNull.
Proof.
  unfold clearVotes. rewrite lookup_fmap.
  destruct (us !! i); simpl; [|done]. by intros [= <-].
Qed.

(** What the host's setDeck does, up to the sessions lost in the
    broadcast that follows. *)
Lemma onMessage_setDeck throws sock uid fields st :
  hostId st = Some uid →
  commandOf (fields !! "type") = Some setDeck_ →
  onMessage throws sock uid (Parsed (JObject fields)) st =
  broadcastState throws None
    (set_users (clearVotes (users st))
       (set_revealed false (set_deck (fields !! "deckId") JNull st))).
Proof.
  intros Hhost Hc. destruct (hostId_is_participant _ _ Hhost) as (u & Hu & _).
  unfold onMessage. rewrite Hu, Hc. by rewrite bool_decide_eq_true_2.
Qed.

(** What the host's setCustomDeck does with a deck that passes the check. *)
Lemma onMessage_setCustomDeck throws sock uid fields deck st :
  hostId st = Some uid →
  commandOf (fields !! "type") = Some setCustomDeck_ →
  fields !! "deck" = Some deck → validDeck (Some deck) = true →
  onMessage throws sock uid (Parsed (JObject fields)) st =
  broadcastState throws None
    (set_users (clearVotes (users st))
       (set_revealed false (set_deck (prop deck "id") deck st))).
Proof.
  intros Hhost Hc Hdeck Hvalid.
  destruct (hostId_is_participant _ _ Hhost) as (u & Hu & _).
  unfold onMessage. rewrite Hu, Hc, Hdeck, Hvalid.
  by rewrite bool_decide_eq_true_2.
Qed.

Lemma new_round_after_broadcast throws message st :
  revealed st = false →
  (∀ i u, users st !! i = Some u → vote u = Some JNull) →
  let st' := (broadcastState throws message st).1 in
  revealed st' = false ∧ ∀ i u, users st' !! i = Some u → vote u = Some JNull.
Proof.
  intros Hrev Hvotes. simpl.
  pose proof (remnant_broadcastState throws message st) as Hrem. split.
  - by rewrite (rem_revealed _ _ Hrem).
  - intros i u Hu. apply (Hvotes i). by apply (rem_users _ _ Hrem).
Qed.

Lemma cleared_after_broadcast throws message st0 st :
  users st = set_vote (Some JNull) <$> users st0 →
  let st' := (broadcastState throws message st).1 in
  (∀ i u', users st' !! i = Some u' →
           ∃ u, users st0 !! i = Some u ∧ u' = set_vote (Some JNull) u) ∧
  (∀ i u, users st0 !! i = Some u → hasSession (sessions st') i = true →
          users st' !! i = Some (set_vote (Some JNull) u)).
Proof.
  intros Hus. cbv zeta.
  pose proof (remnant_broadcastState throws message st) as Hrem. split.
  - intros i u' Hu'%(rem_users _ _ Hrem). rewrite Hus, lookup_fmap in Hu'.
    destruct (users st0 !! i) as [u|]; [|done]. exists u. split; [done|].
    simpl in Hu'. by injection Hu' as <-.
  - intros i u Hu Hhas%(rem_kept _ _ Hrem). rewrite Hhas, Hus, lookup_fmap.
    by rewrite Hu.
Qed.

(** C2. Whatever the room state, when the host sends setDeck, or
    setCustomDeck with a deck that passes the check of the listener, the
    room that results has [revealed = false] and every participant in it
    has the vote [null]. Those participants are the former ones: each entry
    of the result is the entry that id had, with the vote set to [null] and
    nothing else changed, and every participant that still has a session
    is in the result. *)
Theorem C2_deck_change_starts_new_round throws sock uid fields c st :
  hostId st = Some uid →
  commandOf (fields !! "type") = Some c →
  c = setDeck_ ∨ (c = setCustomDeck_ ∧ validDeck (fields !! "deck") = true) →
  let st' := (onMessage throws sock uid (Parsed (JObject fields)) st).1 in
  (revealed st' = false ∧
   ∀ i u, users st' !! i = Some u → vote u = Some JNull) ∧
  (∀ i u', users st' !! i = Some u' →
           ∃ u, users st !! i = Some u ∧ u' = set_vote (Some JNull) u) ∧
  (∀ i u, users st !! i = Some u → hasSession (sessions st') i = true →
          users st' !! i = Some (set_vote (Some JNull) u)).
Proof.
  intros Hhost Hc [-> | [-> Hvalid]].
  - rewrite onMessage_setDeck by done. split.
    + apply new_round_after_broadcast; [done|]. intros i u. apply clearVotes_vote.
    + by apply cleared_after_broadcast.
  - destruct (fields !! "deck") as [deck|] eqn:Hdeck; [|done].
    rewrite (onMessage_setCustomDeck _ _ _ _ deck) by done. split.
    + apply new_round_after_broadcast; [done|]. intros i u. apply clearVotes_vote.
    + by apply cleared_after_broadcast.
Qed.

Lemma C2_deck_change_witness :
  (hostId (room demoRevealed) = Some "bob" ∧
   revealed (room demoRevealed) = true ∧
   users (room demoRevealed) !! "bob" = Some bobVoted ∧
   vote bobVoted = Some (JString "8")) ∧
  revealed (onMessage quiet 1 "bob" (Parsed (JObject bobSetsDeck))
              (room demoRevealed)).1 = false ∧
  users (onMessage quiet 1 "bob" (Parsed (JObject bobSetsDeck))
           (room demoRevealed)).1 !! "bob"
    = Some (set_vote (Some JNull) bobVoted) ∧
  users (onMessage quiet 1 "bob" (Parsed (JObject bobSetsDeck))
           (room demoRevealed)).1 !! "ann"
    = Some (set_vote (Some JNull) (defaultUser "ann" true)).
Proof.
  split; [by repeat split|].
  destruct (C2_deck_change_starts_new_round quiet 1 "bob" bobSetsDeck setDeck_
              (room demoRevealed)) as ([Hrev _] & _ & Hkept);
    [reflexivity | reflexivity | by left |].
  split; [exact Hrev|]. split; apply Hkept; reflexivity.
Defined.

(** ** Commands that are not allowed *)

(** C5. Whatever the room state, a vote sent by a participant that is a
    spectator, and a reveal, reset, setDeck or setCustomDeck sent by
    anyone but the host, return the room as it was, every field of it, and
    make no send at all: no state message and no error envelope goes to any
    socket. *)
Theorem C5_unauthorised_commands_are_dropped throws sock uid fields c st :
  commandOf (fields !! "type") = Some c →
  (c = vote_ ∧ ∃ u, users st !! uid = Some u ∧ isSpectator u = true) ∨
  (privileged c = true ∧ hostId st ≠ Some uid) →
  onMessage throws sock uid (Parsed (JObject fields)) st = (st, []).
Proof.
  intros Hc [[-> (u & Hu & Hsp)] | [Hpriv Hhost]].
  - unfold onMessage. by rewrite Hu, Hc, Hsp.
  - by apply (onMessage_not_host _ _ _ _ c).
Qed.

Lemma C5_unauthorised_witness :
  onMessage quiet 0 "ann"
    (Parsed (object [("type", JString "vote"); ("card", JString "3")]))
    (room demo) = (room demo, []) ∧
  onMessage quiet 0 "ann" (Parsed (object [("type", JString "reset")]))
    (room demoRevealed) = (room demoRevealed, []).
Proof.
  split.
  - apply (C5_unauthorised_commands_are_dropped _ _ _ _ vote_); [reflexivity|].
    left. split; [reflexivity|]. exists (defaultUser "ann" true).
    split; reflexivity.
  - apply (C5_unauthorised_commands_are_dropped _ _ _ _ reset_); [reflexivity|].
    right. split; [reflexivity|]. vm_compute. discriminate.
Defined.

(** ** The deck *)

Lemma validDeck_not_null deck :
  validDeck (Some deck) = true → deck ≠ JNull ∧ toBoolean (prop deck "id") = true.
Proof.
  unfold validDeck. intros H. repeat apply andb_prop in H as [H ?].
  split; [|done]. by intros ->.
Qed.

(** C6. In a reachable world, a custom deck that is present ([not null])
    has the active deck id as its [id]. The two commands that write these
    fields keep it so: the host's setDeck stores the [deckId] of the
    message and sets the custom deck to [null]; the host's setCustomDeck
    with a deck that passes the check stores that deck and its [id] as the
    deck id. *)
Theorem C6_deck_id_and_custom_deck_agree (w : World) :
  reachable w →
  (activeCustomDeck (room w) ≠ JNull →
   prop (activeCustomDeck (room w)) "id" = deckId (room w)) ∧
  (∀ throws sock uid fields,
     hostId (room w) = Some uid →
     commandOf (fields !! "type") = Some setDeck_ →
     let st' := (onMessage throws sock uid (Parsed (JObject fields)) (room w)).1 in
     deckId st' = fields !! "deckId" ∧ activeCustomDeck st' = JNull) ∧
  (∀ throws sock uid fields deck,
     hostId (room w) = Some uid →
     commandOf (fields !! "type") = Some setCustomDeck_ →
     fields !! "deck" = Some deck → validDeck (Some deck) = true →
     let st' := (onMessage throws sock uid (Parsed (JObject fields)) (room w)).1 in
     activeCustomDeck st' = deck ∧ deck ≠ JNull ∧
     deckId st' = prop deck "id").
Proof.
  intros Hreach. split_and!.
  - by apply reachable_invariant in Hreach as [_ _ Hdeck _ _].
  - intros throws sock uid fields Hhost Hc. cbv zeta.
    rewrite onMessage_setDeck by done.
    match goal with |- context [broadcastState ?t ?m ?s] =>
      pose proof (remnant_broadcastState t m s) as Hrem end.
    by rewrite (rem_deckId _ _ Hrem), (rem_custom _ _ Hrem).
  - intros throws sock uid fields deck Hhost Hc Hdeck Hvalid. cbv zeta.
    rewrite (onMessage_setCustomDeck _ _ _ _ deck) by done.
    match goal with |- context [broadcastState ?t ?m ?s] =>
      pose proof (remnant_broadcastState t m s) as Hrem end.
    rewrite (rem_deckId _ _ Hrem), (rem_custom _ _ Hrem).
    by destruct (validDeck_not_null _ Hvalid).
Qed.

Lemma C6_deck_witness :
  reachable demoCustom ∧
  activeCustomDeck (room demoCustom) = planets ∧
  deckId (room demoCustom) = Some (JString "planets") ∧
  prop (activeCustomDeck (room demoCustom)) "id" = deckId (room demoCustom).
Proof.
  split; [apply reachable_run|]. split; [reflexivity|]. split; [reflexivity|].
  apply (C6_deck_id_and_custom_deck_agree demoCustom (reachable_run _)).
  vm_compute. discriminate.
Defined.

(** ** Messages that do not parse *)

(** C7. When the text received on an accepted socket is not JSON, the
    listener makes exactly one send: the error envelope with the message of
    the parse error, on the socket the text came from. The world, and so
    every field of the room, is unchanged, and no state message is sent to
    anyone. *)
Theorem C7_malformed_json_answered_to_sender (w : World) throws sock uid err :
  accepted w !! sock = Some uid →
  step w (Message sock (Malformed err), throws) =
  (w, [[ {| target := sock; body := ErrorEnvelope err;
            delivered := negb (throws 0 sock) |} ]]).
Proof. intros Hsock. unfold step. simpl. rewrite Hsock. by destruct w. Qed.

Lemma C7_malformed_json_witness :
  accepted demo !! 2 = Some "bob" ∧
  step demo (Message 2 (Malformed "Unexpected token"), quiet) =
  (demo, [[ {| target := 2; body := ErrorEnvelope "Unexpected token";
               delivered := true |} ]]).
Proof.
  split; [reflexivity|].
  apply (C7_malformed_json_answered_to_sender demo quiet 2 "bob"). reflexivity.
Defined.

(** ** Reconnecting *)

Lemma register_known sock uid spectator st u :
  users st !! uid = Some u →
  register sock uid spectator st =
  set_sessions (sessions st ++ [mkSession sock uid]) st.
Proof. intros Hu. unfold register. simpl. by rewrite Hu. Qed.

(** C10. When a session is registered for an id that has a participant
    entry, the spectator flag of the new connection is not used: the
    participant map (with the stored flag and every profile field), the
    join order and the host are what they were. After the broadcast that
    ends [handleSession], the entry of that id, if still there, is the old
    one, and it is there as long as the id keeps a session; its eligibility
    as host is then unchanged. *)
Theorem C10_spectator_flag_set_by_first_registration
    throws sock uid spectator st u :
  users st !! uid = Some u →
  (users (register sock uid spectator st) = users st ∧
   userList (register sock uid spectator st) = userList st ∧
   hostId (register sock uid spectator st) = hostId st) ∧
  let st' := (handleSession throws sock uid spectator st).1 in
  (∀ u', users st' !! uid = Some u' → u' = u) ∧
  (hasSession (sessions st') uid = true →
   users st' !! uid = Some u ∧ canHost st' uid = canHost st uid).
Proof.
  intros Hu. rewrite (register_known _ _ _ _ u Hu). split; [done|].
  unfold handleSession. rewrite (register_known _ _ _ _ u Hu).
  match goal with |- context [broadcastState ?t ?m ?s] =>
    pose proof (remnant_broadcastState t m s) as Hrem end.
  cbv zeta. split.
  - intros u' Hu'. apply (rem_users _ _ Hrem) in Hu'. simpl in Hu'. congruence.
  - intros Hhas. apply (rem_kept _ _ Hrem) in Hhas. simpl in Hhas.
    unfold canHost. rewrite Hhas. by rewrite Hu.
Qed.

Lemma C10_spectator_flag_witness :
  users (room demo) !! "ann" = Some (defaultUser "ann" true) ∧
  let st' := (handleSession quiet 3 "ann" false (room demo)).1 in
  users st' !! "ann" = Some (defaultUser "ann" true) ∧
  canHost st' "ann" = false.
Proof.
  split; [reflexivity|].
  destruct (C10_spectator_flag_set_by_first_registration
              quiet 3 "ann" false (room demo) (defaultUser "ann" true)
              eq_refl) as [_ [_ Hkept]].
  apply Hkept. reflexivity.
Defined.

(** ** A participant and its sessions *)







(** ** Profiles *)

Lemma cleared_falsy v : cleared v → toBoolean (Some v) = false.
Proof. by intros [-> | ->]. Qed.

Lemma onMessage_setProfile throws sock uid fields st u :
  users st !! uid = Some u →
  commandOf (fields !! "type") = Some setProfile_ →
  onMessage throws sock uid (Parsed (JObject fields)) st =
  broadcastState throws None
    (set_users (<[uid := applyProfile fields u]> (users st)) st).
Proof. intros Hu Hc. unfold onMessage. by rewrite Hu, Hc. Qed.

(** C8, as stated, fails for the name: Ann, named "Ann", sends setProfile
    with [name] given as [null], and with [name] given as the empty string.
    The stored name stays "Ann" and is not the default name of her id,
    "User ann". *)
Lemma C8_name_is_not_reset :
  name <$> users (room demoNamed) !! "ann" = Some (JString "Ann") ∧
  name (defaultUser "ann" false) = JString "User ann" ∧
  name <$> users (renamed JNull) !! "ann" = Some (JString "Ann") ∧
  name <$> users (renamed JNull) !! "ann"
    ≠ Some (name (defaultUser "ann" false)) ∧
  name <$> users (renamed (JString "")) !! "ann" = Some (JString "Ann") ∧
  name <$> users (renamed (JString "")) !! "ann"
    ≠ Some (name (defaultUser "ann" false)).
Proof.
  split_and!; first [reflexivity | vm_compute; discriminate].
Qed.

(** What setProfile does to the fields of the sender's entry. *)
Lemma setProfile_fields throws sock uid fields st u :
  users st !! uid = Some u →
  commandOf (fields !! "type") = Some setProfile_ →
  let st' := (onMessage throws sock uid (Parsed (JObject fields)) st).1 in
  ∀ u', users st' !! uid = Some u' →
    (fields !! "name" = None → name u' = name u) ∧
    (fields !! "avatar" = None → avatar u' = avatar u) ∧
    (fields !! "colorId" = None → colorId u' = colorId u) ∧
    (∀ v, fields !! "avatar" = Some v → cleared v →
          avatar u' = avatar (defaultUser uid (isSpectator u))) ∧
    (∀ v, fields !! "colorId" = Some v → cleared v →
          colorId u' = colorId (defaultUser uid (isSpectator u))) ∧
    (∀ v, fields !! "name" = Some v → cleared v → name u' = name u).
Proof.
  intros Hu Hc. cbv zeta. rewrite (onMessage_setProfile _ _ _ _ _ u) by done.
  match goal with |- context [broadcastState ?t ?m ?s] =>
    pose proof (remnant_broadcastState t m s) as Hrem end.
  intros u' Hu'. apply (rem_users _ _ Hrem) in Hu'. simpl in Hu'.
  rewrite lookup_insert_eq in Hu'. injection Hu' as <-.
  unfold applyProfile. split_and!.
  - intros ->. by repeat case_match.
  - intros ->. by repeat case_match.
  - intros ->. by repeat case_match.
  - intros v -> Hv%cleared_falsy. rewrite Hv. by repeat case_match.
  - intros v -> Hv%cleared_falsy. by rewrite Hv.
  - intros v -> Hv%cleared_falsy. rewrite Hv. by repeat case_match.
Qed.

(** C8, amended. In a reachable room that accepted no socket under an
    inherited name, for a setProfile message on the socket of a participant, the
    entry of that participant in the resulting room has: each of name,
    avatar and colorId as it was when the field is absent from the
    message; the avatar and the colorId at their defaults ([undefined] and
    "default") when the field is given as [null] or as the empty string;
    and the name as it was when [name] is given as [null] or as the empty
    string. *)
Theorem C8_profile_fields_amended (w : World) throws sock uid fields u :
  reachable w → unpolluted w = true → accepted w !! sock = Some uid →
  users (room w) !! uid = Some u →
  commandOf (fields !! "type") = Some setProfile_ →
  ∀ u',
    users (room (step w (Message sock (Parsed (JObject fields)), throws)).1)
      !! uid = Some u' →
    (fields !! "name" = None → name u' = name u) ∧
    (fields !! "avatar" = None → avatar u' = avatar u) ∧
    (fields !! "colorId" = None → colorId u' = colorId u) ∧
    (∀ v, fields !! "avatar" = Some v → cleared v →
          avatar u' = avatar (defaultUser uid (isSpectator u))) ∧
    (∀ v, fields !! "colorId" = Some v → cleared v →
          colorId u' = colorId (defaultUser uid (isSpectator u))) ∧
    (∀ v, fields !! "name" = Some v → cleared v → name u' = name u).
Proof.
  intros _ _ Hsock Hu Hc u'. rewrite (step_message _ _ uid) by done.
  by apply setProfile_fields.
Qed.

Lemma C8_profile_fields_witness :
  (reachable demoNamed ∧ unpolluted demoNamed = true ∧
   accepted demoNamed !! 0 = Some "ann" ∧
   users (room demoNamed) !! "ann" = Some annNamed) ∧
  ∃ u', users (room (step demoNamed
                       (Message 0 (Parsed (JObject annClearsProfile)), quiet)).1)
          !! "ann" = Some u' ∧
        name u' = JString "Ann" ∧ avatar u' = None ∧
        colorId u' = JString "teal".
Proof.
  split; [split; [apply reachable_run | by repeat split]|].
  pose proof (C8_profile_fields_amended demoNamed quiet 0 "ann"
                annClearsProfile annNamed (reachable_run _)) as Hprofile.
  eexists. split; [reflexivity|].
  destruct (Hprofile eq_refl eq_refl eq_refl eq_refl _ eq_refl)
    as (_ & _ & Hcolor & Havatar & _ & Hname).
  split_and!.
  - apply (Hname (JString "")); [reflexivity | by right].
  - apply (Havatar JNull); [reflexivity | by left].
  - apply Hcolor. reflexivity.
Defined.

(** ** Raw messages *)

(** C9, as stated, fails: in [demo] a raw message is broadcast and the
    send to socket 0, the only session of ann, throws. The session is
    removed, ann with it, and a second pass sends the state to the
    sessions left. *)
Lemma C9_raw_message_is_reconciled :
  sessions (room demo) =
    [mkSession 0 "ann"; mkSession 1 "bob"; mkSession 2 "bob"] ∧
  userList (room demo) = ["ann"; "bob"] ∧
  sessions notified.1 = [mkSession 1 "bob"; mkSession 2 "bob"] ∧
  users notified.1 !! "ann" = None ∧
  userList notified.1 = ["bob"] ∧
  notified.2 = [ [mkSend 0 (RawMessage "notice") false;
                  mkSend 1 (RawMessage "notice") true;
                  mkSend 2 (RawMessage "notice") true];
                 [mkSend 1 (StateMessage (project notified.1)) true;
                  mkSend 2 (StateMessage (project notified.1)) true] ].
Proof. vm_compute. repeat split. Qed.

(** C9, amended. A broadcast of a raw message that is not empty sends that
    message, in place of the state, to every session in its first pass.
    When no send throws, that is all: the room is unchanged and there is
    no other pass. When a send throws, the dead sessions are removed and
    the state of the room that results is broadcast, as after a failed
    broadcast of the state. *)
Theorem C9_raw_message_amended throws m st :
  m ≠ "" →
  let first := sendAll (throws 0) (RawMessage m) (sessions st) in
  (deadSessions (throws 0) (sessions st) = [] →
   broadcastState throws (Some m) st = (st, [first])) ∧
  (∀ dead, deadSessions (throws 0) (sessions st) = dead → dead ≠ [] →
   broadcastState throws (Some m) st =
   ((broadcastState (λ n, throws (S n)) None (removeDead dead st)).1,
    first :: (broadcastState (λ n, throws (S n)) None (removeDead dead st)).2)).
Proof.
  intros Hm. cbv zeta.
  assert (Hout : outgoing (Some m) st = RawMessage m)
    by (unfold outgoing; by rewrite bool_decide_eq_false_2).
  split.
  - intros Hdead. rewrite broadcastState_step, Hdead. by rewrite Hout.
  - intros dead Hdead Hne. rewrite broadcastState_step, Hdead.
    destruct dead; [done|]. by rewrite Hout.
Qed.

Lemma C9_raw_message_witness :
  "notice" ≠ "" ∧
  broadcastState quiet (Some "notice") (room demo) =
  (room demo, [sendAll (quiet 0) (RawMessage "notice") (sessions (room demo))]).
Proof.
  split; [discriminate|].
  apply (C9_raw_message_amended quiet "notice" (room demo)); [discriminate|].
  reflexivity.
Defined.

(** * Further properties *)

(** ** What a broadcast delivers *)

Lemma sendAll_all_delivered throws m ss :
  deadSessions throws ss = [] →
  sendAll throws m ss = sendAll (λ _, false) m ss.
Proof.
  intros Hdead. unfold sendAll. apply list_fmap_ext. intros i s Hs.
  destruct (throws (socket s)) eqn:Hthrow; [|done].
  assert (Hin : s ∈ deadSessions throws ss).
  { apply list_elem_of_filter. split; [done|]. by eapply list_elem_of_lookup_2. }
  rewrite Hdead in Hin. by apply elem_of_nil in Hin.
Qed.

Lemma broadcastState_survivor throws message st s :
  (∀ n, throws n (socket s) = false) → s ∈ sessions st →
  s ∈ sessions (broadcastState throws message st).1.
Proof.
  revert s. apply (broadcastState_passes_ind (λ throws _ st r,
    ∀ s, (∀ n, throws n (socket s) = false) → s ∈ sessions st →
         s ∈ sessions r.1)); clear throws message st.
  - by intros.
  - intros throws message st dead r Hdead _ _ IH s Hs Hin. simpl.
    apply IH; [intros n; apply Hs|].
    rewrite sessions_removeDead. apply list_elem_of_filter. split; [|done].
    rewrite <- Hdead. intros [Hthrow _]%list_elem_of_filter.
    by rewrite Hs in Hthrow.
Qed.

Lemma broadcastState_dropped throws message st s :
  s ∈ sessions st → s ∉ sessions (broadcastState throws message st).1 →
  ∃ n, throws n (socket s) = true.
Proof.
  revert s. apply (broadcastState_passes_ind (λ throws _ st r,
    ∀ s, s ∈ sessions st → s ∉ sessions r.1 →
         ∃ n, throws n (socket s) = true)); clear throws message st.
  - by intros.
  - intros throws message st dead r Hdead _ _ IH s Hin Hout. simpl in Hout.
    destruct (decide (s ∈ dead)) as [Hd | Hd].
    + exists 0. rewrite <- Hdead in Hd.
      by apply list_elem_of_filter in Hd as [Hthrow _].
    + destruct (IH s) as [n Hn]; [|done|by exists (S n)].
      rewrite sessions_removeDead. by apply list_elem_of_filter.
Qed.

Lemma broadcastState_last_pass throws st :
  last (broadcastState throws None st).2 =
  Some (sendAll (λ _, false)
          (StateMessage (project (broadcastState throws None st).1))
          (sessions (broadcastState throws None st).1)).
Proof.
  apply (broadcastState_passes_ind (λ throws message st r,
    message = None →
    last r.2 = Some (sendAll (λ _, false) (StateMessage (project r.1))
                       (sessions r.1)))); [| |done].
  - intros t message s Hdead ->. simpl. by rewrite (sendAll_all_delivered _ _ _ Hdead).
  - intros t message s dead r _ _ _ IH _. simpl.
    rewrite last_cons. by rewrite IH.
Qed.

(** X1. A state broadcast ([broadcastState()] as every handler calls it)
    keeps each session whose sends never throw, drops no session unless a
    send on its socket threw, and ends with a pass that delivers the state
    of the room as it is returned to exactly the sessions of that room. *)
Theorem X1_broadcast_reaches_the_survivors throws st :
  (∀ s, s ∈ sessions st → (∀ n, throws n (socket s) = false) →
        s ∈ sessions (broadcastState throws None st).1) ∧
  (∀ s, s ∈ sessions st → s ∉ sessions (broadcastState throws None st).1 →
        ∃ n, throws n (socket s) = true) ∧
  last (broadcastState throws None st).2 =
  Some ((λ s, mkSend (socket s)
                (StateMessage (project (broadcastState throws None st).1)) true)
        <$> sessions (broadcastState throws None st).1).
Proof.
  split_and!.
  - intros s Hin Hs. by apply broadcastState_survivor.
  - intros s. apply broadcastState_dropped.
  - apply broadcastState_last_pass.
Qed.

(** ** A participant and the handlers that remove sessions *)






(** ** What one command can change *)

Lemma applyProfile_identity data u :
  user_id (applyProfile data u) = user_id u ∧
  isSpectator (applyProfile data u) = isSpectator u ∧
  vote (applyProfile data u) = vote u.
Proof. unfold applyProfile. by repeat case_match. Qed.

Lemma edits_refl uid st : edits uid st st.
Proof.
  split; try done.
  - intros k u u' Hu Hu'. rewrite Hu in Hu'. by injection Hu' as <-.
  - intros k u u1 _ Hu Hu1. rewrite Hu in Hu1. injection Hu1 as <-. auto.
Qed.

(** The sender rewrites its own entry. *)
Lemma edits_own uid st user u1 :
  users st !! uid = Some user →
  user_id u1 = user_id user → isSpectator u1 = isSpectator user →
  edits uid st (set_users (<[uid := u1]> (users st)) st).
Proof.
  intros Hu Hid Hsp. split; simpl; try done.
  - intros k. by eapply is_Some_insert_present.
  - intros k u u' Hk. simpl. destruct (decide (uid = k)) as [<- | Hne].
    + rewrite lookup_insert_eq. intros [= <-]. rewrite Hu in Hk.
      by injection Hk as <-.
    + rewrite lookup_insert_ne by done. intros Hk'. rewrite Hk in Hk'.
      by injection Hk' as <-.
  - intros k u u' Hne Hk. rewrite lookup_insert_ne by done.
    intros Hk'. rewrite Hk in Hk'. injection Hk' as <-. auto.
  - intros _. split_and!; try done. intros k Hne. by apply lookup_insert_ne.
Qed.

(** The host starts over: the votes are kept or all cleared. *)
Lemma edits_host uid st st1 :
  hostId st = Some uid →
  sessions st1 = sessions st → userList st1 = userList st →
  users st1 = users st ∨ users st1 = clearVotes (users st) →
  edits uid st st1.
Proof.
  intros Hhost Hss Hul Hus. split; try done.
  - intros k. destruct Hus as [-> | ->]; [done | apply is_Some_clearVotes].
  - intros k u u' Hk. destruct Hus as [-> | ->].
    + intros Hk'. rewrite Hk in Hk'. by injection Hk' as <-.
    + unfold clearVotes. rewrite lookup_fmap, Hk. simpl. by intros [= <-].
  - intros k u u' _ Hk. destruct Hus as [-> | ->].
    + intros Hk'. rewrite Hk in Hk'. injection Hk' as <-. auto.
    + unfold clearVotes. rewrite lookup_fmap, Hk. simpl. intros [= <-]. auto.
Qed.

(** The three ways a message ends: dropped, answered by an error envelope
    on its own socket, or applied and broadcast. *)
Lemma onMessage_shape throws sock uid msg st :
  onMessage throws sock uid msg st = (st, []) ∨
  (∃ err,
     (msg = Malformed err ∨
      (msg = Parsed JNull ∧ err = typeErrorOfNull ∧ is_Some (users st !! uid))) ∧
     onMessage throws sock uid msg st =
     (st, [[mkSend sock (ErrorEnvelope err) (negb (throws 0 sock))]])) ∨
  (∃ st1, edits uid st st1 ∧
          onMessage throws sock uid msg st = broadcastState throws None st1).
Proof.
  unfold onMessage. destruct msg as [err | data].
  { right; left. exists err. auto. }
  destruct (users st !! uid) as [user|] eqn:Hu; [|by left].
  destruct data as [| | | | |fields]; try by left.
  { right; left. exists typeErrorOfNull. split; [right|]; eauto. }
  destruct (commandOf (fields !! "type")) as [[]|]; [| | | | | |by left].
  - destruct (isSpectator user); [by left|]. right; right.
    eexists. split; [|reflexivity]. by eapply edits_own.
  - case_bool_decide as Hhost; [|by left]. right; right.
    eexists. split; [|reflexivity]. apply edits_host; auto.
  - case_bool_decide as Hhost; [|by left]. right; right.
    eexists. split; [|reflexivity]. apply edits_host; auto.
  - right; right. eexists. split; [|reflexivity].
    destruct (applyProfile_identity fields user) as (? & ? & _).
    by eapply edits_own.
  - case_bool_decide as Hhost; [|by left]. right; right.
    eexists. split; [|reflexivity]. apply edits_host; auto.
  - case_bool_decide as Hhost; [|by left].
    destruct (fields !! "deck") as [deck|]; [|by left].
    destruct (validDeck (Some deck)); [|by left]. right; right.
    eexists. split; [|reflexivity]. apply edits_host; auto.
Qed.

Lemma onMessage_result throws sock uid msg st :
  ∃ st1, edits uid st st1 ∧ remnant st1 (onMessage throws sock uid msg st).1.
Proof.
  destruct (onMessage_shape throws sock uid msg st)
    as [-> | [(err & _ & ->) | (st1 & Hed & ->)]].
  - exists st. split; [apply edits_refl | apply remnant_refl].
  - exists st. split; [apply edits_refl | apply remnant_refl].
  - exists st1. split; [done | apply remnant_broadcastState].
Qed.

Lemma sameIdentity_remnant st st1 st' :
  sameIdentity st st1 → remnant st1 st' → sameIdentity st st'.
Proof.
  intros Hid Hrem k u u' Hu Hu'. apply (Hid k u u' Hu).
  by apply (rem_users _ _ Hrem).
Qed.

Lemma sameIdentity_subset st st1 :
  (∀ k u, users st !! k = Some u → ∀ u1, users st1 !! k = Some u1 → u1 = u) →
  sameIdentity st st1.
Proof. intros Hsub k u u1 Hu Hu1. by rewrite (Hsub k u Hu u1 Hu1). Qed.

Lemma sameIdentity_refl st : sameIdentity st st.
Proof. apply sameIdentity_subset. intros k u Hu u1. rewrite Hu. by intros [= <-]. Qed.

Lemma sameIdentity_register sock uid spectator st :
  sameIdentity st (register sock uid spectator st).
Proof.
  apply sameIdentity_subset. intros k u Hu u1. unfold register. simpl.
  destruct (users st !! uid) eqn:Huid; simpl.
  - rewrite Hu. by intros [= <-].
  - rewrite lookup_insert_ne by congruence. rewrite Hu. by intros [= <-].
Qed.

Lemma sameIdentity_unregister sock uid st :
  sameIdentity st (unregister sock uid st).
Proof.
  apply sameIdentity_subset. intros k u Hu u1. unfold unregister.
  case_match; simpl.
  - rewrite Hu. by intros [= <-].
  - intros Hdel. apply lookup_delete_Some in Hdel as [_ Hdel].
    rewrite Hu in Hdel. by injection Hdel as <-.
Qed.

Lemma step_identity w e : sameIdentity (room w) (room (step w e).1).
Proof.
  destruct e as [[req | sock msg | sock] throws]; unfold step; simpl.
  - unfold fetch.
    destruct (q_userId req) as [uid|]; [|apply sameIdentity_refl].
    case_bool_decide; [apply sameIdentity_refl|].
    case_bool_decide; [|apply sameIdentity_refl]. simpl.
    eapply sameIdentity_remnant; [apply sameIdentity_register|].
    apply remnant_broadcastState.
  - destruct (accepted w !! sock) as [uid|];
      [|apply sameIdentity_refl]. simpl.
    destruct (onMessage_result throws sock uid msg (room w)) as (st1 & Hed & Hrem).
    eapply sameIdentity_remnant; [apply (ed_identity _ _ _ Hed) | done].
  - destruct (accepted w !! sock) as [uid|];
      [|apply sameIdentity_refl]. simpl.
    eapply sameIdentity_remnant; [apply sameIdentity_unregister|].
    apply remnant_broadcastState.
Qed.

(** X2. Whatever the event, a participant that is in the room before and
    after it has the same id and the same spectator flag: no command and no
    reconnection rewrites them. *)
Theorem X2_id_and_spectator_flag_never_change w e k u u' :
  users (room w) !! k = Some u →
  users (room (step w e).1) !! k = Some u' →
  user_id u' = user_id u ∧ isSpectator u' = isSpectator u.
Proof. apply step_identity. Qed.

Lemma X2_identity_witness :
  users (room annAlone) !! "ann" = Some (defaultUser "ann" false) ∧
  users (room (step annAlone annSetsProfile).1) !! "ann" = Some annNamed ∧
  user_id annNamed = "ann" ∧ isSpectator annNamed = false.
Proof.
  split; [reflexivity|]. split; [reflexivity|].
  apply (X2_id_and_spectator_flag_never_change annAlone annSetsProfile "ann"
           (defaultUser "ann" false) annNamed); reflexivity.
Defined.

Lemma remnant_round st st' :
  remnant st st' →
  revealed st' = revealed st ∧ deckId st' = deckId st ∧
  activeCustomDeck st' = activeCustomDeck st.
Proof. by intros []. Qed.

Lemma register_round sock uid spectator st :
  revealed (register sock uid spectator st) = revealed st ∧
  deckId (register sock uid spectator st) = deckId st ∧
  activeCustomDeck (register sock uid spectator st) = activeCustomDeck st.
Proof. unfold register. by case_match. Qed.

Lemma unregister_round sock uid st :
  revealed (unregister sock uid st) = revealed st ∧
  deckId (unregister sock uid st) = deckId st ∧
  activeCustomDeck (unregister sock uid st) = activeCustomDeck st.
Proof. unfold unregister. by case_match. Qed.

(** Unless the event is a message of the host, the round and the deck of
    the room are what they were. *)
Lemma step_round w e :
  (∀ sock msg uid, e.1 = Message sock msg → accepted w !! sock = Some uid →
                   hostId (room w) ≠ Some uid) →
  revealed (room (step w e).1) = revealed (room w) ∧
  deckId (room (step w e).1) = deckId (room w) ∧
  activeCustomDeck (room (step w e).1) = activeCustomDeck (room w).
Proof.
  destruct e as [[req | sock msg | sock] throws]; unfold step; simpl; intros Hguest.
  - unfold fetch. repeat (case_match; try done). simpl.
    match goal with |- context [handleSession ?t ?k ?i ?b ?s] =>
      unfold handleSession;
      destruct (remnant_round _ _ (remnant_broadcastState t None (register k i b s)))
        as (-> & -> & ->); apply register_round end.
  - destruct (accepted w !! sock) as [uid|] eqn:Hsock; [|done]. simpl.
    destruct (onMessage_result throws sock uid msg (room w)) as (st1 & Hed & Hrem).
    destruct (remnant_round _ _ Hrem) as (-> & -> & ->).
    destruct (ed_guest _ _ _ Hed) as (? & ? & ? & _); [|done].
    by apply (Hguest sock msg).
  - destruct (accepted w !! sock) as [uid|]; [|done]. simpl.
    match goal with |- context [onClose ?t ?k ?i ?s] =>
      unfold onClose;
      destruct (remnant_round _ _ (remnant_broadcastState t None (unregister k i s)))
        as (-> & -> & ->); apply unregister_round end.
Qed.

(** X3. Only a message of the host can change the round or the deck: when
    an event leaves the room with another reveal flag, deck id or custom
    deck, the event is a message on a socket accepted for the participant
    that [hostId] names in the room before it. Connections, closes, failed
    sends and the messages of everyone else leave the three fields alone. *)
Theorem X3_only_the_host_changes_round_and_deck w e :
  revealed (room (step w e).1) ≠ revealed (room w) ∨
  deckId (room (step w e).1) ≠ deckId (room w) ∨
  activeCustomDeck (room (step w e).1) ≠ activeCustomDeck (room w) →
  ∃ sock msg uid,
    e.1 = Message sock msg ∧ accepted w !! sock = Some uid ∧
    hostId (room w) = Some uid.
Proof.
  intros Hchanged.
  destruct e as [[req | sock msg | sock] throws].
  - exfalso. destruct (step_round w (Connect req, throws)) as (? & ? & ?);
      [done | tauto].
  - destruct (accepted w !! sock) as [uid|] eqn:Hsock.
    + destruct (decide (hostId (room w) = Some uid)) as [Hhost | Hguest].
      * by exists sock, msg, uid.
      * exfalso. destruct (step_round w (Message sock msg, throws)) as (? & ? & ?);
          [|tauto].
        intros sock' msg' uid' [= <- <-] Hsock'. congruence.
    + exfalso. destruct (step_round w (Message sock msg, throws)) as (? & ? & ?);
        [|tauto].
      intros sock' msg' uid' [= <- <-] Hsock'. congruence.
  - exfalso. destruct (step_round w (Close sock, throws)) as (? & ? & ?);
      [done | tauto].
Qed.

Lemma X3_only_the_host_witness :
  revealed (room (step demo (command 1 "reveal" [], quiet)).1) ≠ revealed (room demo) ∧
  ∃ sock msg uid,
    (command 1 "reveal" [], quiet).1 = Message sock msg ∧
    accepted demo !! sock = Some uid ∧ hostId (room demo) = Some uid.
Proof.
  assert (Hrev : revealed (room (step demo (command 1 "reveal" [], quiet)).1)
                   ≠ revealed (room demo)) by (vm_compute; discriminate).
  split; [exact Hrev|].
  apply (X3_only_the_host_changes_round_and_deck demo (command 1 "reveal" [], quiet)).
  by left.
Defined.

(** X4. A message of one participant never edits the profile of another:
    every other participant in the room after the message was there before
    with the same id, name, avatar, colour and spectator flag. Its vote is
    the same too, unless the sender is the host, whose reset or deck change
    sets it to [null]. *)
Theorem X4_a_message_leaves_the_others_alone throws sock uid msg st k u' :
  k ≠ uid →
  users (onMessage throws sock uid msg st).1 !! k = Some u' →
  ∃ u, users st !! k = Some u ∧
       user_id u' = user_id u ∧ name u' = name u ∧ avatar u' = avatar u ∧
       colorId u' = colorId u ∧ isSpectator u' = isSpectator u ∧
       (vote u' = vote u ∨ (vote u' = Some JNull ∧ hostId st = Some uid)).
Proof.
  intros Hne Hk'.
  destruct (onMessage_result throws sock uid msg st) as (st1 & Hed & Hrem).
  apply (rem_users _ _ Hrem) in Hk'.
  destruct (proj1 (ed_dom _ _ _ Hed k)) as [u Hk]; [by eexists|].
  exists u. split; [done|].
  destruct (ed_identity _ _ _ Hed k u u' Hk Hk') as [? ?].
  destruct (ed_others _ _ _ Hed k u u' Hne Hk Hk') as (? & ? & ? & Hvote).
  split_and!; try done.
  destruct (decide (hostId st = Some uid)) as [Hhost | Hguest].
  - destruct Hvote; auto.
  - destruct (ed_guest _ _ _ Hed Hguest) as (_ & _ & _ & Hsame).
    rewrite Hsame, Hk in Hk' by done. injection Hk' as <-. by left.
Qed.

Lemma X4_others_witness :
  "bob" ≠ "ann" ∧
  users (onMessage quiet 0 "ann" annRenames (room demoRevealed)).1 !! "bob"
    = Some bobVoted ∧
  ∃ u, users (room demoRevealed) !! "bob" = Some u ∧
       user_id bobVoted = user_id u ∧ name bobVoted = name u ∧
       avatar bobVoted = avatar u ∧ colorId bobVoted = colorId u ∧
       isSpectator bobVoted = isSpectator u ∧
       (vote bobVoted = vote u ∨
        (vote bobVoted = Some JNull ∧ hostId (room demoRevealed) = Some "ann")).
Proof.
  split; [discriminate|]. split; [reflexivity|].
  apply (X4_a_message_leaves_the_others_alone quiet 0 "ann" annRenames
           (room demoRevealed) "bob" bobVoted); [discriminate | reflexivity].
Defined.

(** ** What goes out *)

Lemma broadcastState_bodies throws st c :
  c ∈ concat (broadcastState throws None st).2 → ∃ p, body c = StateMessage p.
Proof.
  revert c. apply (broadcastState_passes_ind (λ throws message st r,
    message = None → ∀ c, c ∈ concat r.2 → ∃ p, body c = StateMessage p));
    [| |done].
  - intros t message s _ -> c. simpl. rewrite app_nil_r.
    intros (x & -> & _)%list_elem_of_fmap. by eexists.
  - intros t message s dead r _ _ _ IH -> c. simpl.
    intros [Hc | Hc]%elem_of_app; [|by apply IH].
    apply list_elem_of_fmap in Hc as (x & -> & _). by eexists.
Qed.

Lemma step_sends w e c :
  c ∈ concat (step w e).2 →
  (∃ p, body c = StateMessage p) ∨
  (∃ sock msg err,
     e.1 = Message sock msg ∧
     (msg = Malformed err ∨ msg = Parsed JNull) ∧
     target c = sock ∧ body c = ErrorEnvelope err ∧
     (step w e).2 = [[c]] ∧ (step w e).1 = w).
Proof.
  destruct e as [[req | sock msg | sock] throws]; unfold step; simpl.
  - unfold fetch. repeat (case_match; simpl; try by intros ?%elem_of_nil).
    intros Hc. left. by eapply broadcastState_bodies.
  - destruct (accepted w !! sock) as [uid|]; [|by intros ?%elem_of_nil]. simpl.
    destruct (onMessage_shape throws sock uid msg (room w))
      as [-> | [(err & Hmsg & ->) | (st1 & _ & ->)]].
    + by intros ?%elem_of_nil.
    + simpl. intros ->%list_elem_of_singleton. right.
      exists sock, msg, err. split_and!; try done; [|by destruct w].
      destruct Hmsg as [? | (? & _)]; auto.
    + intros Hc. left. by eapply broadcastState_bodies.
  - destruct (accepted w !! sock) as [uid|]; [|by intros ?%elem_of_nil]. simpl.
    intros Hc. left. by eapply broadcastState_bodies.
Qed.

(** X5. In a reachable room that accepted no socket under an inherited
    name, every send made while an event is handled carries the state of the room, with
    one exception: an error envelope, which goes to the socket of a message
    that did not parse or that parsed to [null]; it is then the only send
    of the event and the room is unchanged. No handler ever sends a raw
    message. *)
Theorem X5_sends_are_states_or_one_error w e c :
  reachable w → unpolluted w = true →
  c ∈ concat (step w e).2 →
  (∃ p, body c = StateMessage p) ∨
  (∃ sock msg err,
     e.1 = Message sock msg ∧
     (msg = Malformed err ∨ msg = Parsed JNull) ∧
     target c = sock ∧ body c = ErrorEnvelope err ∧
     (step w e).2 = [[c]] ∧ (step w e).1 = w).
Proof. intros _ _. apply step_sends. Qed.

Lemma X5_sends_witness :
  (reachable demo ∧ unpolluted demo = true ∧
   mkSend 2 (ErrorEnvelope "Unexpected end") true
     ∈ concat (step demo (Message 2 (Malformed "Unexpected end"), quiet)).2) ∧
  ((∃ p, body (mkSend 2 (ErrorEnvelope "Unexpected end") true) = StateMessage p) ∨
   (∃ sock msg err,
      (Message 2 (Malformed "Unexpected end"), quiet).1 = Message sock msg ∧
      (msg = Malformed err ∨ msg = Parsed JNull) ∧
      target (mkSend 2 (ErrorEnvelope "Unexpected end") true) = sock ∧
      body (mkSend 2 (ErrorEnvelope "Unexpected end") true) = ErrorEnvelope err ∧
      (step demo (Message 2 (Malformed "Unexpected end"), quiet)).2
        = [[mkSend 2 (ErrorEnvelope "Unexpected end") true]] ∧
      (step demo (Message 2 (Malformed "Unexpected end"), quiet)).1 = demo)).
Proof.
  assert (Hin : mkSend 2 (ErrorEnvelope "Unexpected end") true
            ∈ concat (step demo (Message 2 (Malformed "Unexpected end"), quiet)).2)
    by (vm_compute; left).
  split; [split; [apply reachable_run | split; [reflexivity | exact Hin]]|].
  exact (X5_sends_are_states_or_one_error demo _ _ (reachable_run _) eq_refl Hin).
Defined.

(** ** The books of the room *)

Lemma counted_removeDead dead st : counted st → counted (removeDead dead st).
Proof.
  intros Hc k. rewrite users_removeDead, sessions_removeDead.
  unfold orphaned.
  destruct (hasSession (filter _ (sessions st)) k) eqn:Hactive; [done|].
  rewrite andb_true_r.
  destruct (hasSession dead k) eqn:Hdead; [by intros []|].
  intros Hk. apply Hc, hasSession_true in Hk as (s & Hs & Hsk).
  rewrite hasSession_false in Hactive. exfalso. apply (Hactive s); [|done].
  apply list_elem_of_filter. split; [|done].
  intros Hd. rewrite hasSession_false in Hdead. by apply (Hdead s).
Qed.

Lemma counted_broadcastState throws message st :
  counted st → counted (broadcastState throws message st).1.
Proof.
  apply (broadcastState_passes_ind (λ _ _ st r, counted st → counted r.1));
    clear throws message st.
  - by intros.
  - intros throws message st dead r _ _ _ IH Hc. simpl.
    by apply IH, counted_removeDead.
Qed.

Lemma census_broadcastState throws message st :
  census st → census (broadcastState throws message st).1.
Proof.
  intros (Hc & Hk & Hnd).
  pose proof (remnant_broadcastState throws message st) as Hrem. split_and!.
  - by apply counted_broadcastState.
  - intros k u Hu. apply Hk. by apply (rem_users _ _ Hrem).
  - eapply sublist_NoDup; [exact Hnd | apply Hrem].
Qed.

Lemma census_register sock uid spectator st :
  listed st → census st → census (register sock uid spectator st).
Proof.
  intros Hl (Hc & Hk & Hnd). unfold register. simpl.
  assert (Hmore : ∀ k, hasSession (sessions st) k = true →
                       hasSession (sessions st ++ [mkSession sock uid]) k = true).
  { intros k (s & Hs & Hsk)%hasSession_true. apply hasSession_true.
    exists s. split; [|done]. apply elem_of_app. by left. }
  assert (Hnew : hasSession (sessions st ++ [mkSession sock uid]) uid = true).
  { apply hasSession_true. exists (mkSession sock uid). split; [|done].
    apply elem_of_app. right. by apply list_elem_of_singleton. }
  destruct (users st !! uid) eqn:Hu; split_and!; simpl; try done.
  - intros k Hsome. by apply Hmore, Hc.
  - intros k. simpl. rewrite lookup_insert_is_Some'.
    intros [<- | Hsome]; [done | by apply Hmore, Hc].
  - intros k u. simpl. destruct (decide (uid = k)) as [<- | Hne].
    + rewrite lookup_insert_eq. by intros [= <-].
    + rewrite lookup_insert_ne by done. apply Hk.
  - apply NoDup_app. split_and!; [done | | apply NoDup_singleton].
    intros x Hx ->%list_elem_of_singleton. apply Hl in Hx as [? Hx]. congruence.
Qed.

Lemma census_unregister a sock uid st :
  invariant (mkWorld st a) → a !! sock = Some uid →
  census st → census (unregister sock uid st).
Proof.
  intros [_ _ _ Hbound _] Hsock (Hc & Hk & Hnd). simpl in Hbound.
  assert (Hstay : ∀ k, k ≠ uid → hasSession (sessions st) k = true →
            hasSession (filter (λ s, socket s ≠ sock) (sessions st)) k = true).
  { intros k Hne (s & Hs & Hsk)%hasSession_true. apply hasSession_true.
    exists s. split; [|done]. apply list_elem_of_filter. split; [|done].
    intros Heq. apply Hbound in Hs. rewrite Heq, Hsock in Hs. congruence. }
  unfold unregister.
  destruct (hasSession _ uid) eqn:Hhas; split_and!; simpl; try done.
  - intros k Hsome. simpl in *. destruct (decide (k = uid)) as [-> | Hne]; [done|].
    by apply Hstay, Hc.
  - intros k. simpl. rewrite lookup_delete_is_Some. intros [Hne Hsome].
    by apply Hstay, Hc.
  - intros k u. simpl. intros [_ Hu]%lookup_delete_Some. by apply Hk.
  - by apply NoDup_filter.
Qed.

Lemma census_edits uid st st1 : edits uid st st1 → census st → census st1.
Proof.
  intros Hed (Hc & Hk & Hnd). split_and!.
  - intros k Hsome. rewrite (ed_sessions _ _ _ Hed).
    by apply Hc, (ed_dom _ _ _ Hed).
  - intros k u1 Hu1.
    destruct (proj1 (ed_dom _ _ _ Hed k)) as [u Hu]; [by eexists|].
    destruct (ed_identity _ _ _ Hed k u u1 Hu Hu1) as [-> _]. by apply Hk.
  - by rewrite (ed_userList _ _ _ Hed).
Qed.

Lemma census_step w e :
  invariant w → census (room w) → census (room (step w e).1).
Proof.
  intros Hinv Hcen.
  destruct e as [[req | sock msg | sock] throws]; unfold step; simpl.
  - unfold fetch. repeat (case_match; try done). simpl.
    apply census_broadcastState, census_register; [apply Hinv | done].
  - destruct (accepted w !! sock) as [uid|]; [|done]. simpl.
    destruct (onMessage_shape throws sock uid msg (room w))
      as [-> | [(err & _ & ->) | (st1 & Hed & ->)]]; try done.
    by eapply census_broadcastState, census_edits.
  - destruct (accepted w !! sock) as [uid|] eqn:Hsock; [|done]. simpl.
    eapply census_broadcastState, census_unregister; [|done..].
    by destruct w.
Qed.

Lemma reachable_census w : reachable w → census (room w).
Proof.
  intros [es <-]. induction es as [|e es IH] using rev_ind.
  - split_and!; [by intros k [? ?] | by intros k u ? | constructor].
  - rewrite run_snoc. apply census_step; [|done].
    apply reachable_invariant, reachable_run.
Qed.

Lemma participants_have_sessions w :
  reachable w →
  ∀ k, is_Some (users (room w) !! k) ↔
       ∃ s, s ∈ sessions (room w) ∧ userId s = k.
Proof.
  intros Hreach k. rewrite <- hasSession_true. split.
  - by apply (reachable_census w Hreach).
  - intros (s & Hs & <-)%hasSession_true.
    by apply (inv_owned _ (reachable_invariant w Hreach)).
Qed.

(** X6. In a reachable world that accepted no socket under an inherited
    name, the participants are exactly the ids that have a session: an
    entry is in the participant map if and only if some session names its
    id. A participant is created with its first session and removed with
    its last, by a close or by a failed send. *)
Theorem X6_participants_are_the_ids_with_a_session w :
  reachable w → unpolluted w = true →
  ∀ k, is_Some (users (room w) !! k) ↔
       ∃ s, s ∈ sessions (room w) ∧ userId s = k.
Proof. intros Hreach _. by apply participants_have_sessions. Qed.

Lemma X6_participants_witness :
  (reachable demoSpectators ∧ unpolluted demoSpectators = true) ∧
  (is_Some (users (room demoSpectators) !! "bob") ↔
   ∃ s, s ∈ sessions (room demoSpectators) ∧ userId s = "bob") ∧
  (is_Some (users (room demoSpectators) !! "ann") ↔
   ∃ s, s ∈ sessions (room demoSpectators) ∧ userId s = "ann") ∧
  users (room demoSpectators) !! "bob" = None ∧
  users (room demoSpectators) !! "ann" = Some (defaultUser "ann" true).
Proof.
  split; [split; [apply reachable_run | reflexivity]|].
  split; [|split; [|by split]].
  - apply (X6_participants_are_the_ids_with_a_session demoSpectators);
      [apply reachable_run | reflexivity].
  - apply (X6_participants_are_the_ids_with_a_session demoSpectators);
      [apply reachable_run | reflexivity].
Defined.

(** X7. In a reachable world the join order lists exactly the ids of the
    participant map, each once, every entry of the map is stored under the
    id it carries, and no two sessions share a socket. *)
Theorem X7_join_order_lists_each_participant_once w :
  reachable w →
  (∀ k, k ∈ userList (room w) ↔ is_Some (users (room w) !! k)) ∧
  NoDup (userList (room w)) ∧
  (∀ k u, users (room w) !! k = Some u → user_id u = k) ∧
  NoDup (socket <$> sessions (room w)).
Proof.
  intros Hreach. destruct (reachable_census w Hreach) as (_ & Hk & Hnd).
  destruct (reachable_invariant w Hreach) as [Hl _ _ _ Hsock]. by split_and!.
Qed.

Lemma X7_join_order_witness :
  reachable demo ∧ NoDup (userList (room demo)) ∧
  userList (room demo) = ["ann"; "bob"].
Proof.
  split; [apply reachable_run|]. split; [|reflexivity].
  apply (X7_join_order_lists_each_participant_once demo). apply reachable_run.
Defined.

Lemma omap_lookup_ids (us : gmap string User) (l : list string) :
  (∀ k, k ∈ l → ∃ u, us !! k = Some u ∧ user_id u = k) →
  user_id <$> omap (λ i, us !! i) l = l.
Proof.
  induction l as [|a l IH]; intros Hall; [done|]. simpl.
  destruct (Hall a) as (u & -> & Hid); [left|]. simpl. rewrite Hid. f_equal.
  apply IH. intros k Hk. apply Hall. by right.
Qed.

(** X8. The [users] array of the state message of a reachable room has one
    element for each id of the join order, in that order, carrying that id:
    nobody is skipped by the [filter(Boolean)] and nobody appears twice. *)
Theorem X8_state_message_lists_the_join_order w :
  reachable w →
  user_id <$> p_users (project (room w)) = userList (room w) ∧
  NoDup (user_id <$> p_users (project (room w))) ∧
  ∀ u, u ∈ p_users (project (room w)) ↔
       users (room w) !! user_id u = Some u.
Proof.
  intros Hreach. destruct (reachable_census w Hreach) as (_ & Hk & Hnd).
  destruct (reachable_invariant w Hreach) as [Hl _ _ _ _].
  assert (Hids : user_id <$> p_users (project (room w)) = userList (room w)).
  { apply omap_lookup_ids. intros k [u Hu]%Hl. exists u. split; [done|].
    by apply Hk. }
  split_and!; [done | by rewrite Hids |].
  intros u. unfold project. simpl. rewrite list_elem_of_omap. split.
  - intros (k & _ & Hu). by rewrite (Hk k u Hu).
  - intros Hu. exists (user_id u). split; [|done]. apply Hl. by eexists.
Qed.

Lemma X8_state_message_witness :
  reachable demoRevealed ∧
  user_id <$> p_users (project (room demoRevealed)) = ["ann"; "bob"].
Proof.
  split; [apply reachable_run|].
  apply (X8_state_message_lists_the_join_order demoRevealed). apply reachable_run.
Defined.

(** ** How long a host stays host *)

(** The host of [st] is the host of [st'] when it is still there, the join
    order only lost ids or gained some at its end, and no flag changed. *)
Lemma host_kept st st' h extra :
  listed st → listed st' →
  NoDup (userList st ++ extra) →
  userList st' `sublist_of` userList st ++ extra →
  sameIdentity st st' →
  hostId st = Some h → is_Some (users st' !! h) →
  hostId st' = Some h.
Proof.
  intros Hl Hl' Hnd Hsub Hid Hhost [u' Hu'].
  unfold hostId in Hhost. apply find_Some_first in Hhost
    as (l1 & l2 & Heq & [u [Hu Hsp]]%canHost_true & Hl1).
  rewrite Heq, <- app_assoc in Hsub, Hnd. simpl in Hsub, Hnd.
  apply NoDup_app in Hnd as (_ & Hnotl1 & [Hnotl2 _]%NoDup_cons).
  apply sublist_app_r in Hsub as (k1 & k2 & Hlist & Hk1 & Hk2).
  assert (Hin : h ∈ userList st') by (apply Hl'; by eexists).
  rewrite Hlist in Hin.
  assert (Hk2h : ∃ k2', k2 = h :: k2').
  { apply sublist_cons_r in Hk2 as [Hk2 | (k2' & -> & _)]; [|by eexists].
    exfalso. apply elem_of_app in Hin as [Hin | Hin].
    - apply (Hnotl1 h); [by eapply elem_of_sublist | left].
    - apply Hnotl2. by eapply elem_of_sublist. }
  destruct Hk2h as [k2' ->].
  unfold hostId. apply find_Some_first. exists k1, k2'. split_and!; [done | |].
  - apply canHost_true. exists u'. split; [done|].
    destruct (Hid h u u' Hu Hu') as [_ ->]. done.
  - intros y Hy.
    assert (Hy1 : y ∈ l1) by by eapply elem_of_sublist.
    assert (Hyl : y ∈ userList st) by (rewrite Heq; apply elem_of_app; by left).
    assert (Hyl' : y ∈ userList st')
      by (rewrite Hlist; apply elem_of_app; by left).
    apply (canHost_false st y Hl Hyl) in Hl1 as (v & Hv & Hvsp); [|done].
    apply (canHost_false st' y Hl' Hyl'). apply Hl' in Hyl' as [v' Hv'].
    exists v'. split; [done|]. destruct (Hid y v v' Hv Hv') as [_ ->]. done.
Qed.

(** One event takes ids out of the join order or adds one at its end. *)
Lemma step_join_order w e :
  reachable w →
  ∃ extra, NoDup (userList (room w) ++ extra) ∧
           userList (room (step w e).1) `sublist_of` userList (room w) ++ extra.
Proof.
  intros Hreach. destruct (reachable_census w Hreach) as (_ & _ & Hnd).
  pose proof (reachable_invariant w Hreach) as [Hl _ _ _ _].
  assert (Hnone : ∃ extra, NoDup (userList (room w) ++ extra) ∧
            userList (room w) `sublist_of` userList (room w) ++ extra).
  { exists []. by rewrite app_nil_r. }
  destruct e as [[req | sock msg | sock] throws]; unfold step; simpl.
  - unfold fetch. repeat (case_match; try done). simpl. unfold handleSession.
    match goal with |- context [broadcastState ?t ?m ?s] =>
      pose proof (remnant_broadcastState t m s) as Hrem end.
    match goal with |- context [register ?k ?i ?b ?s] =>
      destruct (census_register k i b s Hl (reachable_census w Hreach))
        as (_ & _ & Hnd1); exists (drop (length (userList s)) (userList (register k i b s)))
    end.
    revert Hrem Hnd1. unfold register. simpl. case_match; simpl; intros Hrem Hnd1.
    + rewrite drop_all, app_nil_r. split; [done | apply Hrem].
    + rewrite drop_app_length. split; [done | apply Hrem].
  - destruct (accepted w !! sock) as [uid|]; [|done]. simpl.
    destruct (onMessage_result throws sock uid msg (room w)) as (st1 & Hed & Hrem).
    exists []. rewrite app_nil_r. split; [done|].
    rewrite <- (ed_userList _ _ _ Hed). apply Hrem.
  - destruct (accepted w !! sock) as [uid|]; [|done]. simpl. unfold onClose.
    match goal with |- context [broadcastState ?t ?m ?s] =>
      pose proof (remnant_broadcastState t m s) as Hrem end.
    exists []. rewrite app_nil_r. split; [done|].
    etrans; [apply Hrem|]. unfold unregister. case_match; simpl; [done|].
    apply sublist_filter.
Qed.

(** X9. The host keeps the role for as long as it stays in the room: in a
    reachable world, whatever the event (someone joining before or after,
    others leaving, any command, any failed send), if the host is still a
    participant afterwards then [hostId] still names it. *)
Theorem X9_host_stays_host_while_present w e h :
  reachable w →
  hostId (room w) = Some h →
  is_Some (users (room (step w e).1) !! h) →
  hostId (room (step w e).1) = Some h.
Proof.
  intros Hreach Hhost Hstill.
  destruct (step_join_order w e Hreach) as (extra & Hnd & Hsub).
  apply (host_kept (room w) _ h extra); try done.
  - apply (reachable_invariant w Hreach).
  - apply reachable_invariant. destruct Hreach as [es <-].
    rewrite <- run_snoc. apply reachable_run.
  - apply step_identity.
Qed.

Lemma X9_host_witness :
  reachable demo ∧ hostId (room demo) = Some "bob" ∧
  is_Some (users (room (step demo (Close 1, quiet)).1) !! "bob") ∧
  hostId (room (step demo (Close 1, quiet)).1) = Some "bob".
Proof.
  assert (Hstill : is_Some (users (room (step demo (Close 1, quiet)).1) !! "bob"))
    by (vm_compute; eauto).
  split; [apply reachable_run|]. split; [reflexivity|]. split; [exact Hstill|].
  apply (X9_host_stays_host_while_present demo (Close 1, quiet) "bob");
    [apply reachable_run | reflexivity | exact Hstill].
Defined.

Lemma hostId_register_first sock uid st :
  listed st → hostId st = None → users st !! uid = None →
  hostId (register sock uid false st) = Some uid.
Proof.
  intros Hl Hnone Hu. unfold hostId in *. rewrite find_None_all in Hnone.
  unfold register. simpl. rewrite Hu. simpl.
  apply find_Some_first. exists (userList st), []. split_and!; [done | |].
  - unfold canHost. simpl. by rewrite lookup_insert_eq.
  - intros y Hy. specialize (Hnone y Hy). unfold canHost in *. simpl.
    rewrite lookup_insert_ne; [done|]. intros <-. apply Hl in Hy as [? Hy].
    congruence.
Qed.

(** A new voter that joins a room without host becomes its host. *)
Lemma first_voter_becomes_host w throws uid flag :
  reachable w →
  hostId (room w) = None →
  users (room w) !! uid = None → uid ≠ "" → flag ≠ Some "true" →
  (∀ n, throws n (length (accepted w)) = false) →
  hostId (room (step w (Connect (mkRequest (Some uid) flag (Some "websocket")),
                        throws)).1) = Some uid.
Proof.
  intros Hreach Hnone Hu Hne Hflag Hquiet.
  pose proof (reachable_invariant w Hreach) as Hinv.
  pose proof (inv_listed _ Hinv) as Hl.
  assert (Hreach' : reachable (step w (Connect (mkRequest (Some uid) flag
                                 (Some "websocket")), throws)).1).
  { destruct Hreach as [es <-]. rewrite <- run_snoc. apply reachable_run. }
  apply reachable_invariant in Hreach' as [Hl' _ _ _ _]. revert Hl'.
  unfold step, fetch, handleSession. simpl.
  rewrite bool_decide_eq_false_2 by done.
  rewrite (bool_decide_eq_false_2 (flag = Some "true")) by done. simpl.
  set (st1 := register (length (accepted w)) uid false (room w)).
  intros Hl'.
  pose proof (remnant_broadcastState throws None st1) as Hrem.
  pose proof (invariant_register w uid false Hinv) as Hinv1.
  destruct (census_register (length (accepted w)) uid false (room w) Hl
              (reachable_census w Hreach)) as (_ & _ & Hnd1).
  apply (host_kept st1 _ uid []).
  - apply Hinv1.
  - exact Hl'.
  - by rewrite app_nil_r.
  - rewrite app_nil_r. apply Hrem.
  - eapply sameIdentity_remnant; [apply sameIdentity_refl | exact Hrem].
  - by apply hostId_register_first.
  - rewrite (rem_kept _ _ Hrem).
    + unfold st1, register. simpl. rewrite Hu. simpl.
      rewrite lookup_insert_eq. by eexists.
    + apply hasSession_true. exists (mkSession (length (accepted w)) uid).
      split; [|done]. apply broadcastState_survivor; [done|].
      unfold st1, register. simpl. rewrite Hu. simpl.
      apply elem_of_app. right. by apply list_elem_of_singleton.
Qed.

(** X10. When a reachable room that accepted no socket under an inherited
    name has no host, and a new id that is not an inherited name connects
    without the spectator flag ([isSpectator] absent or anything but
    "true") on a socket whose sends do not throw, the newcomer is the host
    when the connection has been handled, whatever happens to the other
    sockets. *)
Theorem X10_first_voter_to_join_becomes_host w throws uid flag :
  reachable w → unpolluted w = true →
  hostId (room w) = None →
  users (room w) !! uid = None → uid ≠ "" → inherited uid = false →
  flag ≠ Some "true" →
  (∀ n, throws n (length (accepted w)) = false) →
  hostId (room (step w (Connect (mkRequest (Some uid) flag (Some "websocket")),
                        throws)).1) = Some uid.
Proof. intros Hreach _ Hnone Hu Hne _. by apply first_voter_becomes_host. Qed.

Lemma X10_first_voter_witness :
  (reachable demoSpectators ∧ unpolluted demoSpectators = true ∧
   hostId (room demoSpectators) = None ∧
   users (room demoSpectators) !! "cat" = None ∧ "cat" ≠ "" ∧
   inherited "cat" = false ∧
   (None : option string) ≠ Some "true" ∧
   (∀ n, failsOnce 0 n (length (accepted demoSpectators)) = false)) ∧
  hostId (room (step demoSpectators
                  (Connect (mkRequest (Some "cat") None (Some "websocket")),
                   failsOnce 0)).1) = Some "cat".
Proof.
  assert (Hquiet : ∀ n, failsOnce 0 n (length (accepted demoSpectators)) = false).
  { intros n. unfold failsOnce. apply bool_decide_eq_false_2.
    intros [_ Hsock]. vm_compute in Hsock. discriminate. }
  split.
  - split; [apply reachable_run|]. split; [reflexivity|].
    split; [reflexivity|]. split; [reflexivity|].
    split; [discriminate|]. split; [reflexivity|].
    split; [discriminate | exact Hquiet].
  - apply (X10_first_voter_to_join_becomes_host demoSpectators (failsOnce 0)
             "cat" None); [apply reachable_run | reflexivity | reflexivity
                          | reflexivity | discriminate | reflexivity
                          | discriminate | exact Hquiet].
Defined.

(** ** Closing and connecting *)

Lemma set_sessions_same st : set_sessions (sessions st) st = st.
Proof. by destruct st. Qed.

(** X11. A close that comes late does no harm: in a reachable world, when
    the socket that closes has no session left (it was dropped after a
    failed send), the close listener removes nobody, even if its
    participant has come back on another socket; all it does is broadcast
    the state. *)
Theorem X11_close_of_a_dropped_socket_removes_nobody w sock uid throws :
  reachable w → accepted w !! sock = Some uid →
  (∀ s, s ∈ sessions (room w) → socket s ≠ sock) →
  unregister sock uid (room w) = room w ∧
  step w (Close sock, throws) =
  (mkWorld (broadcastState throws None (room w)).1 (accepted w),
   (broadcastState throws None (room w)).2).
Proof.
  intros Hreach Hsock Hgone.
  destruct (reachable_census w Hreach) as (Hc & _ & _).
  pose proof (reachable_invariant w Hreach) as [Hl _ _ _ _].
  assert (Hun : unregister sock uid (room w) = room w).
  { unfold unregister. rewrite (filter_keeps_all _ _ Hgone).
    rewrite set_sessions_same.
    destruct (hasSession (sessions (room w)) uid) eqn:Hhas; [done|].
    assert (Hu : users (room w) !! uid = None).
    { apply eq_None_not_Some. intros Hsome%Hc. congruence. }
    rewrite delete_id by done. rewrite filter_keeps_all.
    - by destruct (room w).
    - intros x Hx ->. apply Hl in Hx as [? Hx]. congruence. }
  split; [done|]. unfold step, onClose. simpl. by rewrite Hsock, Hun.
Qed.

Lemma X11_late_close_witness :
  (reachable annDropped ∧ accepted annDropped !! 0 = Some "ann" ∧
   sessions (room annDropped) = [mkSession 1 "bob"]) ∧
  unregister 0 "ann" (room annDropped) = room annDropped.
Proof.
  split; [split; [apply reachable_run | split; reflexivity]|].
  apply (X11_close_of_a_dropped_socket_removes_nobody annDropped 0 "ann" quiet);
    [apply reachable_run | reflexivity |].
  intros s ->%list_elem_of_singleton. discriminate.
Defined.

(** X12. [PokerRoom.fetch] answers 400 exactly when [userId] is absent or
    empty, whatever the [Upgrade] header; 426 exactly when there is a
    [userId] and the header is not [websocket]; 101 otherwise. A request
    that is refused touches nothing and sends nothing; one that is accepted
    adds one listener, for that [userId], on a socket no session uses. *)
Theorem X12_fetch_answers throws req w :
  ((fetch throws req w).1.1 = 400 ↔
     q_userId req = None ∨ q_userId req = Some "") ∧
  ((fetch throws req w).1.1 = 426 ↔
     (∃ uid, q_userId req = Some uid ∧ uid ≠ "") ∧
     h_upgrade req ≠ Some "websocket") ∧
  ((fetch throws req w).1.1 = 101 ↔
     (∃ uid, q_userId req = Some uid ∧ uid ≠ "") ∧
     h_upgrade req = Some "websocket") ∧
  ((fetch throws req w).1.1 ≠ 101 →
     (fetch throws req w).1.2 = w ∧ (fetch throws req w).2 = []) ∧
  ((fetch throws req w).1.1 = 101 →
     ∃ uid, q_userId req = Some uid ∧
            accepted (fetch throws req w).1.2 = accepted w ++ [uid] ∧
            (reachable w →
             ∀ s, s ∈ sessions (room w) → socket s ≠ length (accepted w))).
Proof.
  unfold fetch. destruct (q_userId req) as [uid|]; simpl.
  - case_bool_decide as Hempty; simpl.
    + subst uid. split_and!; try done.
      * split; [by right | done].
      * split; [done | by intros [(? & [= <-] & ?) _]].
      * split; [done | by intros [(? & [= <-] & ?) _]].
    + case_bool_decide as Hup; simpl.
      * split_and!; try done.
        -- split; [done | intros [? | [= ?]]; done].
        -- split; [done | by intros [_ ?]].
        -- split; [by eauto | done].
        -- intros _. exists uid. split_and!; [done..|].
           intros [_ _ _ Hbound _]%reachable_invariant s Hs Heq.
           apply Hbound in Hs.
           apply lookup_lt_Some in Hs. lia.
      * split_and!; try done.
        -- split; [done | intros [? | [= ?]]; done].
        -- split; [by eauto | done].
        -- split; [done | by intros [_ ?]].
  - split_and!; try done.
    + split; [by left | done].
    + split; [done | by intros [(? & ? & _) _]].
    + split; [done | by intros [(? & ? & _) _]].
Qed.

(** A connection accepted on a socket that works is in the room. *)
Lemma accepted_connection_registered throws req w uid :
  q_userId req = Some uid → uid ≠ "" → h_upgrade req = Some "websocket" →
  (∀ n, throws n (length (accepted w)) = false) →
  (fetch throws req w).1.1 = 101 ∧
  mkSession (length (accepted w)) uid
    ∈ sessions (room (fetch throws req w).1.2) ∧
  users (room (fetch throws req w).1.2) !! uid =
  Some (default (defaultUser uid (bool_decide (q_isSpectator req = Some "true")))
                (users (room w) !! uid)).
Proof.
  intros Huid Hne Hup Hquiet. unfold fetch. rewrite Huid.
  rewrite bool_decide_eq_false_2, bool_decide_eq_true_2 by done. simpl.
  unfold handleSession.
  match goal with |- context [broadcastState ?t ?m ?s] =>
    pose proof (remnant_broadcastState t m s) as Hrem;
    pose proof (broadcastState_survivor t m s
                  (mkSession (length (accepted w)) uid) Hquiet) as Hsurv end.
  assert (Hin : mkSession (length (accepted w)) uid ∈
                sessions (register (length (accepted w)) uid
                  (bool_decide (q_isSpectator req = Some "true")) (room w))).
  { unfold register. simpl. case_match; simpl; apply elem_of_app; right;
      by apply list_elem_of_singleton. }
  split_and!; [done | by apply Hsurv |].
  rewrite (rem_kept _ _ Hrem).
  - unfold register. simpl. destruct (users (room w) !! uid) eqn:Hu; simpl.
    + done.
    + by rewrite lookup_insert_eq.
  - apply hasSession_true. eexists. split; [by apply Hsurv | done].
Qed.

(** X13. In a reachable room that accepted no socket under an inherited
    name, a connection for an id that is not an inherited name and is made of
    characters below 128, accepted on a socket whose sends do not throw, is
    in the room when [fetch] returns: its session is registered, its
    participant is the stored entry when the id was known, and otherwise a
    new entry with the default name, no vote, no avatar, the default colour
    and the spectator flag of the request ([true] only for the text
    "true"). *)
Theorem X13_accepted_connection_is_registered throws req w uid :
  reachable w → unpolluted w = true →
  q_userId req = Some uid → uid ≠ "" →
  inherited uid = false → sevenBit uid = true →
  h_upgrade req = Some "websocket" →
  (∀ n, throws n (length (accepted w)) = false) →
  (fetch throws req w).1.1 = 101 ∧
  mkSession (length (accepted w)) uid
    ∈ sessions (room (fetch throws req w).1.2) ∧
  users (room (fetch throws req w).1.2) !! uid =
  Some (default (defaultUser uid (bool_decide (q_isSpectator req = Some "true")))
                (users (room w) !! uid)).
Proof. intros _ _ Huid Hne _ _. by apply accepted_connection_registered. Qed.

Lemma X13_accepted_connection_witness :
  (reachable demo ∧ unpolluted demo = true ∧ "cat" ≠ "" ∧
   inherited "cat" = false ∧
   sevenBit "cat" = true ∧
   (∀ n, failsOnce 0 n (length (accepted demo)) = false)) ∧
  users (room (fetch (failsOnce 0)
                 (mkRequest (Some "cat") (Some "TRUE") (Some "websocket"))
                 demo).1.2) !! "cat" = Some (defaultUser "cat" false).
Proof.
  assert (Hquiet : ∀ n, failsOnce 0 n (length (accepted demo)) = false).
  { intros n. unfold failsOnce. apply bool_decide_eq_false_2.
    intros [_ Hsock]. vm_compute in Hsock. discriminate. }
  split; [split_and!; [apply reachable_run | reflexivity | discriminate
                      | reflexivity | reflexivity | exact Hquiet]|].
  apply (X13_accepted_connection_is_registered (failsOnce 0)
           (mkRequest (Some "cat") (Some "TRUE") (Some "websocket")) demo "cat");
    [apply reachable_run | reflexivity | reflexivity | discriminate
    | reflexivity | reflexivity | reflexivity | exact Hquiet].
Defined.

(** ** The commands, one by one *)










Lemma commandOf_typeName t c :
  commandOf t = Some c ↔ t = Some (JString (typeName c)).
Proof.
  split.
  - unfold commandOf. destruct t as [[| | |s| |]|]; try done.
    repeat case_bool_decide; try done; subst s; by intros [= <-].
  - intros ->. by destruct c.
Qed.

Lemma onMessage_dropped throws sock uid st :
  (∀ data, users st !! uid = None →
           onMessage throws sock uid (Parsed data) st = (st, [])) ∧
  (∀ data, data ≠ JNull → (∀ fields, data ≠ JObject fields) →
           onMessage throws sock uid (Parsed data) st = (st, [])) ∧
  (∀ fields, (∀ c, fields !! "type" ≠ Some (JString (typeName c))) →
             onMessage throws sock uid (Parsed (JObject fields)) st = (st, [])).
Proof.
  split_and!.
  - intros data Hu. unfold onMessage. by rewrite Hu.
  - intros data Hnull Hobj. unfold onMessage.
    destruct (users st !! uid); [|done].
    destruct data as [| | | | |fields]; try done. by destruct (Hobj fields).
  - intros fields Htype. unfold onMessage.
    destruct (users st !! uid); [|done].
    destruct (commandOf (fields !! "type")) as [c|] eqn:Hc; [|done].
    apply commandOf_typeName in Hc. by destruct (Htype c).
Qed.

(** X17. The messages that are dropped without a word, in a reachable room
    that accepted no socket under an inherited name: the world is as it was and
    nothing is sent when the participant of the socket is no longer in the
    room (whatever was parsed); when the parsed value is neither an object
    nor [null]; and when it is an object whose [type] is not exactly one of
    the six command names (absent, not a string, or spelled otherwise,
    upper case included). *)
Theorem X17_unknown_messages_are_dropped w throws sock uid :
  reachable w → unpolluted w = true → accepted w !! sock = Some uid →
  (∀ data, users (room w) !! uid = None →
           step w (Message sock (Parsed data), throws) = (w, [])) ∧
  (∀ data, data ≠ JNull → (∀ fields, data ≠ JObject fields) →
           step w (Message sock (Parsed data), throws) = (w, [])) ∧
  (∀ fields, (∀ c, fields !! "type" ≠ Some (JString (typeName c))) →
             step w (Message sock (Parsed (JObject fields)), throws) = (w, [])).
Proof.
  intros _ _ Hsock.
  destruct (onMessage_dropped throws sock uid (room w)) as (H1 & H2 & H3).
  split_and!.
  - intros data Hu. rewrite (step_message _ _ uid), H1 by done. by destruct w.
  - intros data Hnull Hobj.
    rewrite (step_message _ _ uid), H2 by done. by destruct w.
  - intros fields Htype.
    rewrite (step_message _ _ uid), H3 by done. by destruct w.
Qed.

Lemma X17_unknown_messages_witness :
  (reachable annDropped ∧ unpolluted annDropped = true ∧
   accepted annDropped !! 0 = Some "ann" ∧
   users (room annDropped) !! "ann" = None) ∧
  step annDropped
    (Message 0 (Parsed (object [("type", JString "reveal")])), quiet)
  = (annDropped, []).
Proof.
  split; [split; [apply reachable_run | by repeat split]|].
  destruct (X17_unknown_messages_are_dropped annDropped quiet 0 "ann")
    as (Hgone & _); [apply reachable_run | reflexivity | reflexivity |].
  apply Hgone. reflexivity.
Defined.

Lemma validDeck_shape d : validDeck (Some d) = true ↔ deckShape d.
Proof.
  unfold validDeck, deckShape. split.
  - intros H. repeat apply andb_prop in H as [H ?].
    destruct d as [| | | | |fields]; try done. simpl in *.
    destruct (fields !! "id") as [i|] eqn:Hi; [|done].
    destruct (fields !! "name") as [n|] eqn:Hn; [|done].
    destruct (fields !! "cards") as [[| | | |cards|]|] eqn:Hcards; try done.
    by exists fields, i, n, cards.
  - intros (fields & i & n & cards & -> & Hi & Hti & Hn & Htn & Hcards).
    simpl. by rewrite Hi, Hti, Hn, Htn, Hcards.
Qed.

(** X18. In a reachable room that accepted no socket under an inherited
    name, the deck of a setCustomDeck message is taken exactly when it is an object
    with a truthy [id], a truthy [name] and an array as [cards]; the array
    may be empty and its elements are not looked at. Sent by the host, such
    a deck becomes the custom deck and its [id] the deck id. Any other
    [deck], also an absent one, makes the message a no-op, from the host
    too: the world is unchanged and nothing is sent. *)
Theorem X18_custom_deck_check w throws sock uid fields :
  reachable w → unpolluted w = true → accepted w !! sock = Some uid →
  commandOf (fields !! "type") = Some setCustomDeck_ →
  ((∀ d, fields !! "deck" = Some d → ¬ deckShape d) →
   step w (Message sock (Parsed (JObject fields)), throws) = (w, [])) ∧
  (hostId (room w) = Some uid →
   ∀ d, fields !! "deck" = Some d → deckShape d →
     activeCustomDeck
       (room (step w (Message sock (Parsed (JObject fields)), throws)).1) = d ∧
     deckId
       (room (step w (Message sock (Parsed (JObject fields)), throws)).1)
       = prop d "id").
Proof.
  intros _ _ Hsock Hc. rewrite (step_message _ _ uid) by done. split.
  - intros Hbad. unfold onMessage. rewrite Hc.
    destruct (users (room w) !! uid); [|by destruct w].
    case_bool_decide; [|by destruct w].
    destruct (fields !! "deck") as [deck|] eqn:Hdeck; [|by destruct w].
    destruct (validDeck (Some deck)) eqn:Hvalid; [|by destruct w].
    apply validDeck_shape in Hvalid. by destruct (Hbad deck).
  - intros Hhost d Hd Hshape%validDeck_shape.
    rewrite (onMessage_setCustomDeck _ _ _ _ d) by done. cbn [room fst].
    match goal with |- context [broadcastState ?t ?m ?s] =>
      pose proof (remnant_broadcastState t m s) as Hrem end.
    by rewrite (rem_custom _ _ Hrem), (rem_deckId _ _ Hrem).
Qed.

Lemma X18_custom_deck_witness :
  (reachable demo ∧ unpolluted demo = true ∧
   accepted demo !! 1 = Some "bob" ∧ hostId (room demo) = Some "bob") ∧
  step demo (Message 1 (Parsed (JObject bobSendsBadDeck)), quiet) = (demo, []) ∧
  activeCustomDeck
    (room (step demo (Message 1 (Parsed (JObject bobSendsPlanets)), quiet)).1)
    = planets.
Proof.
  split; [split; [apply reachable_run | by repeat split]|].
  destruct (X18_custom_deck_check demo quiet 1 "bob" bobSendsBadDeck)
    as [Hbad _]; [apply reachable_run | reflexivity..|].
  destruct (X18_custom_deck_check demo quiet 1 "bob" bobSendsPlanets)
    as [_ Hgood]; [apply reachable_run | reflexivity..|].
  split.
  - apply Hbad. intros d Hd (props & i & n & cards & -> & _ & _ & _ & _ & Hcards).
    vm_compute in Hd. injection Hd as <-. vm_compute in Hcards. discriminate.
  - apply (Hgood eq_refl planets); [reflexivity|].
    apply validDeck_shape. reflexivity.
Defined.

(** X19. Nothing but a connection adds to a room: every session of the
    room after an event was a session before it, or is the session of the
    request just accepted, on the new socket and for the [userId] of the
    request; every participant after the event was one before it, or has
    the [userId] of that request. Messages and closes add neither. *)
Theorem X19_only_a_connection_adds w e :
  (∀ s, s ∈ sessions (room (step w e).1) →
        s ∈ sessions (room w) ∨
        ∃ req, e.1 = Connect req ∧ q_userId req = Some (userId s) ∧
               socket s = length (accepted w)) ∧
  (∀ k, is_Some (users (room (step w e).1) !! k) →
        is_Some (users (room w) !! k) ∨
        ∃ req, e.1 = Connect req ∧ q_userId req = Some k).
Proof.
  destruct e as [[req | sock msg | sock] throws]; unfold step; simpl.
  - unfold fetch. destruct (q_userId req) as [uid|] eqn:Huid; [|by auto].
    case_bool_decide; [by auto|]. case_bool_decide; [|by auto]. simpl.
    unfold handleSession.
    match goal with |- context [broadcastState ?t ?m ?s] =>
      pose proof (remnant_broadcastState t m s) as Hrem end.
    split.
    + intros s Hs.
      pose proof (elem_of_sublist _ _ _ Hs (rem_sessions _ _ Hrem)) as Hin.
      clear Hs. revert Hin. unfold register. simpl.
      case_match; simpl; (intros [Hs | ->%list_elem_of_singleton]%elem_of_app;
        [by left | right; by exists req]).
    + intros k [u Hu%(rem_users _ _ Hrem)]. revert Hu. unfold register. simpl.
      case_match; simpl; [by eauto|].
      destruct (decide (uid = k)) as [<- | Hne]; [right; by exists req|].
      rewrite lookup_insert_ne by done. by eauto.
  - destruct (accepted w !! sock) as [uid|]; [|by auto]. simpl.
    destruct (onMessage_result throws sock uid msg (room w)) as (st1 & Hed & Hrem).
    split.
    + intros s Hs. left. rewrite <- (ed_sessions _ _ _ Hed).
      eapply elem_of_sublist; [exact Hs | apply Hrem].
    + intros k [u Hu%(rem_users _ _ Hrem)]. left.
      apply (ed_dom _ _ _ Hed). by eexists.
  - destruct (accepted w !! sock) as [uid|]; [|by auto]. simpl. unfold onClose.
    match goal with |- context [broadcastState ?t ?m ?s] =>
      pose proof (remnant_broadcastState t m s) as Hrem end.
    split.
    + intros s Hs. left.
      pose proof (elem_of_sublist _ _ _ Hs (rem_sessions _ _ Hrem)) as Hin.
      rewrite sessions_unregister in Hin.
      by apply list_elem_of_filter in Hin as [_ ?].
    + intros k [u Hu%(rem_users _ _ Hrem)]. left. revert Hu.
      unfold unregister. case_match; simpl; [by eauto|].
      intros [_ Hu]%lookup_delete_Some. by eauto.
Qed.

(** ** The route to a room *)

Lemma afterPrefix_Some p s r : afterPrefix p s = Some r ↔ s = p +:+ r.
Proof.
  revert s. induction p as [|a p IH]; intros s; simpl.
  - split; [by intros [= ->] | by intros ->].
  - destruct s as [|b s]; [done|].
    destruct (Ascii.eqb a b) eqn:Hab.
    + apply Ascii.eqb_eq in Hab as ->. rewrite IH. split; [by intros -> | by intros [= ->]].
    + apply Ascii.eqb_neq in Hab. split; [done | by intros [= -> _]].
Qed.

Lemma isAlnum_upper c : isAlnum (upper c) = isAlnum c.
Proof. by destruct c as [[] [] [] [] [] [] [] []]. Qed.

Lemma upper_upper c : upper (upper c) = upper c.
Proof. by destruct c as [[] [] [] [] [] [] [] []]. Qed.

Lemma allAlnum_toUpperCase s : allAlnum (toUpperCase s) = allAlnum s.
Proof. induction s as [|c s IH]; simpl; [done|]. by rewrite isAlnum_upper, IH. Qed.

Lemma toUpperCase_idemp s : toUpperCase (toUpperCase s) = toUpperCase s.
Proof. induction s as [|c s IH]; simpl; [done|]. by rewrite upper_upper, IH. Qed.

Lemma length_toUpperCase s : String.length (toUpperCase s) = String.length s.
Proof. induction s as [|c s IH]; simpl; [done | by rewrite IH]. Qed.

Lemma toUpperCase_empty s : toUpperCase s = "" ↔ s = "".
Proof. by destruct s. Qed.

Lemma roomCode_route raw :
  roomCode ("/room/" +:+ raw) =
  if negb (bool_decide (raw = "")) && allAlnum raw
  then Some (toUpperCase raw) else None.
Proof. reflexivity. Qed.

(** X20. The worker forwards a request to a room exactly when its path is
    [/room/] followed by one or more letters and digits, and nothing else;
    every other path is answered 404. The room code is then those
    characters in upper case: it is not empty, holds letters and digits
    only, is its own upper case, and [/room/] followed by the code leads to
    the same room. *)
Theorem X20_room_code_of_a_path pathname code :
  (roomCode pathname = Some code ↔
   ∃ raw, pathname = "/room/" +:+ raw ∧ raw ≠ "" ∧ allAlnum raw = true ∧
          code = toUpperCase raw) ∧
  (roomCode pathname = Some code →
   code ≠ "" ∧ allAlnum code = true ∧ toUpperCase code = code ∧
   String.length pathname = 6 + String.length code ∧
   roomCode ("/room/" +:+ code) = Some code).
Proof.
  assert (Hiff : roomCode pathname = Some code ↔
            ∃ raw, pathname = "/room/" +:+ raw ∧ raw ≠ "" ∧
                   allAlnum raw = true ∧ code = toUpperCase raw).
  { unfold roomCode. split.
    - destruct (afterPrefix "/room/" pathname) as [raw|] eqn:Hraw; [|done].
      apply afterPrefix_Some in Hraw. case_bool_decide as Hempty; [done|].
      simpl. destruct (allAlnum raw) eqn:Hal; [|done]. intros [= <-].
      by exists raw.
    - intros (raw & -> & Hne & Hal & ->).
      rewrite (proj2 (afterPrefix_Some "/room/" _ raw) eq_refl).
      by rewrite bool_decide_eq_false_2, Hal. }
  split; [exact Hiff|].
  intros (raw & -> & Hne & Hal & ->)%Hiff. split_and!.
  - by rewrite toUpperCase_empty.
  - by rewrite allAlnum_toUpperCase.
  - apply toUpperCase_idemp.
  - simpl. by rewrite length_toUpperCase.
  - rewrite roomCode_route, allAlnum_toUpperCase, Hal, toUpperCase_idemp.
    rewrite bool_decide_eq_false_2; [done|]. by rewrite toUpperCase_empty.
Qed.

Lemma X20_room_code_witness :
  roomCode "/room/ab12Cd" = Some "AB12CD" ∧
  roomCode "/room/AB12CD" = Some "AB12CD" ∧
  roomCode "/room/" = None ∧ roomCode "/room/ab12/" = None ∧
  roomCode "/rooms/ab12" = None ∧ roomCode "/room/ab-12" = None ∧
  roomCode "/ROOM/ab12" = None.
Proof.
  split; [reflexivity|]. split; [|by repeat split].
  apply (X20_room_code_of_a_path "/room/ab12Cd" "AB12CD"). reflexivity.
Defined.

(** X21. Room codes do not depend on the case of the letters: two paths
    under [/room/] whose codes have the same upper case are routed alike,
    to the same room or both to the 404 answer. *)
Theorem X21_room_codes_ignore_case raw1 raw2 :
  toUpperCase raw1 = toUpperCase raw2 →
  roomCode ("/room/" +:+ raw1) = roomCode ("/room/" +:+ raw2).
Proof.
  intros Heq. rewrite !roomCode_route, Heq.
  rewrite <- (allAlnum_toUpperCase raw1), <- (allAlnum_toUpperCase raw2), Heq.
  assert (Hempty : bool_decide (raw1 = "") = bool_decide (raw2 = "")).
  { apply bool_decide_ext.
    by rewrite <- (toUpperCase_empty raw1), <- (toUpperCase_empty raw2), Heq. }
  by rewrite Hempty.
Qed.

Lemma X21_room_codes_witness :
  toUpperCase "Team7" = toUpperCase "tEAM7" ∧
  roomCode "/room/Team7" = roomCode "/room/tEAM7" ∧
  roomCode "/room/tEAM7" = Some "TEAM7".
Proof.
  split; [reflexivity|]. split; [|reflexivity].
  apply (X21_room_codes_ignore_case "Team7" "tEAM7"). reflexivity.
Defined.
